(** * MCTP emulator: message matching and delayed delivery

    A shallow embedding of [src/MCTPBinding.cpp]: the message-type
    classifier [getMessageType], the request matcher
    [processMctpCommand], and the delayed delivery queue driven by
    [processResponse] and its timer handler.  Bytes and machine integers
    are values of [Z]; the process-wide globals ([respQueue],
    [timerExpired], [delayTimer]) form one record that is threaded
    through every operation; everything the code sends, logs or prints
    is collected in a trace of effects. *)

From Stdlib Require Import ZArith List Bool String Ascii Lia DecimalString.
From stdpp Require Import base gmap.
Import ListNotations.

Local Open Scope string_scope.
Local Open Scope list_scope.
Local Open Scope Z_scope.

(** ** Machine integers *)

(** [static_cast<uint8_t>] of an integer. *)
Definition to_uint8 (z : Z) : Z := z mod 256.

(** [static_cast<int>] of a 64-bit integer: two's complement wrap-around
    to 32 bits. *)
Definition to_int32 (z : Z) : Z := (z + 2 ^ 31) mod 2 ^ 32 - 2 ^ 31.

Definition INT_MAX : Z := 2 ^ 31 - 1.
Definition INT_MIN : Z := - 2 ^ 31.

(** [std::to_string] of a [uint8_t] promoted to [int]. *)
Definition to_string (z : Z) : string := NilZero.string_of_int (Z.to_int z).

(** [be16toh] applied to a 16-bit field whose two bytes are, in memory
    order, [b0] then [b1]. *)
Definition be16toh (b0 b1 : Z) : Z := Z.lor (Z.shiftl b0 8) b1.

(** [operator==] of [std::vector<uint8_t>]: equal sizes, then an
    element-wise comparison. *)
Definition vec_eqb (a b : list Z) : bool :=
  (List.length a =? List.length b)%nat
  && forallb (fun xy => fst xy =? snd xy) (combine a b).

(** ** Effects *)

Inductive level := INFO | WARNING | ERR.

(** The arguments of [sendMessageReceivedSignal], which are also the
    tuple stored in a [respQueue] entry. *)
Record MessageReceivedSignal := mkSignal {
  msgType : Z;
  srcEid : Z;
  msgTag : Z;
  tagOwner : bool;
  response : list Z
}.

Inductive effect :=
| Signal (s : MessageReceivedSignal)  (* msgSignal.signal_send() *)
| Log (l : level) (msg : string)      (* phosphor::logging::log<l>(msg) *)
| CerrUnableToOpen                    (* std::cerr << "unable to open " ... *)
| CerrJsonException                   (* std::cerr << "message: " << e.what() ... *)
| OpenConfig.                         (* std::ifstream jsonFile(reqRespDataFile) *)

Definition trace := list effect.

(** The signals of a trace, in the order they were sent. *)
Fixpoint signals (t : trace) : list MessageReceivedSignal :=
  match t with
  | [] => []
  | Signal s :: t' => s :: signals t'
  | _ :: t' => signals t'
  end.

(** The number of times the configuration file was opened. *)
Fixpoint config_reads (t : trace) : nat :=
  match t with
  | [] => O
  | OpenConfig :: t' => S (config_reads t')
  | _ :: t' => config_reads t'
  end.

Definition logged (l : level) (msg : string) (t : trace) : Prop :=
  In (Log l msg) t.

(** [sendMessageReceivedSignal]. *)
Definition sendMessageReceivedSignal (s : MessageReceivedSignal) : trace :=
  [Signal s; Log INFO "Response signal sent"].

(** ** Message classifier *)

(** The message-type codes of [libmctp-msgtypes.h], with the values the
    source records next to each [case]. *)
Definition MCTP_MESSAGE_TYPE_MCTP_CTRL : Z := 0x00.
Definition MCTP_MESSAGE_TYPE_PLDM : Z := 0x01.
Definition MCTP_MESSAGE_TYPE_NCSI : Z := 0x02.
Definition MCTP_MESSAGE_TYPE_ETHERNET : Z := 0x03.
Definition MCTP_MESSAGE_TYPE_NVME : Z := 0x04.
Definition MCTP_MESSAGE_TYPE_SPDM : Z := 0x05.
Definition MCTP_MESSAGE_TYPE_VDPCI : Z := 0x7E.
Definition MCTP_MESSAGE_TYPE_VDIANA : Z := 0x7F.

(** The value [getMessageType] returns; its informational log line is
    [getMessageType_log]. *)
Definition getMessageType (msgType : Z) : string :=
  if msgType =? MCTP_MESSAGE_TYPE_MCTP_CTRL then "MctpControl"
  else if msgType =? MCTP_MESSAGE_TYPE_PLDM then "PLDM"
  else if msgType =? MCTP_MESSAGE_TYPE_NCSI then "NCSI"
  else if msgType =? MCTP_MESSAGE_TYPE_ETHERNET then "Ethernet"
  else if msgType =? MCTP_MESSAGE_TYPE_NVME then "NVMeMgmtMsg"
  else if msgType =? MCTP_MESSAGE_TYPE_SPDM then "SPDM"
  else if msgType =? MCTP_MESSAGE_TYPE_VDPCI then "VDPCI"
  else if msgType =? MCTP_MESSAGE_TYPE_VDIANA then "VDIANA"
  else "Unknown".

Definition getMessageType_log (msgType : Z) : trace :=
  [Log INFO ("Message Type: " ++ getMessageType msgType)%string].

(** The categories of the data model and the name under which the
    classifier reports each of them. *)
Inductive MessageCategory :=
| Control | PLDM | NetworkSideband | Ethernet | StorageMgmt
| SecurityProtocol | VendorPCI | VendorIANA | Unknown.

Definition category_name (c : MessageCategory) : string :=
  match c with
  | Control => "MctpControl"
  | PLDM => "PLDM"
  | NetworkSideband => "NCSI"
  | Ethernet => "Ethernet"
  | StorageMgmt => "NVMeMgmtMsg"
  | SecurityProtocol => "SPDM"
  | VendorPCI => "VDPCI"
  | VendorIANA => "VDIANA"
  | Unknown => "Unknown"
  end.

(** ** Configuration documents *)

#[local] Set Warnings "-register-all".

(** The values of the JSON library.  [JNum n] stands for a number the
    library holds as a 64-bit integer, signed or unsigned, so for [n]
    from [-2^63] up to [2^64 - 1]; numbers the library holds as a
    double (literals with a fraction or an exponent, or beyond 64 bits)
    are outside the model.  [JDiscarded] is what [json::parse] returns
    for an unparsable document when exceptions are switched off.  An
    object lists its members in the iteration order of the library
    (sorted by key). *)
Inductive json :=
| JNull
| JDiscarded
| JBool (b : bool)
| JNum (n : Z)
| JStr (s : string)
| JArr (items : list json)
| JObj (members : list (string * json)).

Fixpoint assoc (key : string) (members : list (string * json)) : option json :=
  match members with
  | [] => None
  | (k, v) :: rest => if String.eqb k key then Some v else assoc key rest
  end.

(** [j[key]] on a non-const value: a null value becomes an empty object,
    a missing member is created as null, and any other kind of value
    throws.  [None] stands for the thrown [json::exception]. *)
Definition json_index (j : json) (key : string) : option json :=
  match j with
  | JNull => Some JNull
  | JObj members =>
      Some (match assoc key members with Some v => v | None => JNull end)
  | _ => None
  end.

(** [j.contains(key)]. *)
Definition json_contains (j : json) (key : string) : bool :=
  match j with
  | JObj members =>
      match assoc key members with Some _ => true | None => false end
  | _ => false
  end.

(** The values visited by iterating from [begin()] to [end()]. *)
Definition json_items (j : json) : list json :=
  match j with
  | JNull => []
  | JArr items => items
  | JObj members => map snd members
  | _ => [j]
  end.

(** Conversion of a value to [int]: a 64-bit integer is narrowed to
    32 bits, a boolean becomes 0 or 1, any other kind of value throws. *)
Definition json_to_int (j : json) : option Z :=
  match j with
  | JNum n => Some (to_int32 n)
  | JBool b => Some (if b then 1 else 0)
  | _ => None
  end.

(** Conversion of a value to [uint8_t]: a 64-bit integer is narrowed
    to 8 bits, a boolean becomes 0 or 1, any other kind of value
    throws. *)
Definition json_to_uint8 (j : json) : option Z :=
  match j with
  | JNum n => Some (to_uint8 n)
  | JBool b => Some (if b then 1 else 0)
  | _ => None
  end.

(** [v.assign(std::begin(j), std::end(j))] for a [std::vector<uint8_t>]. *)
Fixpoint assign_bytes (items : list json) : option (list Z) :=
  match items with
  | [] => Some []
  | j :: rest =>
      match json_to_uint8 j with
      | None => None
      | Some b =>
          match assign_bytes rest with
          | None => None
          | Some bs => Some (b :: bs)
          end
      end
  end.

(** One configured behaviour, as the matcher reads it from an entry of
    the rule list. *)
Record Rule := mkRule {
  processingDelayMilliSec : Z;
  req : list Z;
  rule_response : list Z
}.

(** The [try] block of the matching loop: [None] when one of its
    statements throws a [json::exception]. *)
Definition decode_rule (iter : json) : option Rule :=
  match
    (if json_contains iter "processing-delay" then
       match json_index iter "processing-delay" with
       | Some d => json_to_int d
       | None => None
       end
     else Some 0)
  with
  | None => None
  | Some delay =>
      match json_index iter "request" with
      | None => None
      | Some request =>
          match assign_bytes (json_items request) with
          | None => None
          | Some rq =>
              match json_index iter "response" with
              | None => None
              | Some resp =>
                  match assign_bytes (json_items resp) with
                  | None => None
                  | Some rs => Some (mkRule delay rq rs)
                  end
              end
          end
      end
  end.

(** ** The delayed delivery queue *)

Definition retryTimeMilliSec : Z := 10.

(** An entry of [respQueue]: the remaining delay and the signal to send. *)
Definition PendingResponse : Type := Z * MessageReceivedSignal.

(** The globals of the translation unit.  [delayTimer_waiting] tells
    whether a handler registered with [delayTimer->async_wait] is still
    outstanding, that is, whether the timer is running. *)
Record State := mkState {
  respQueue : list PendingResponse;
  timerExpired : bool;
  delayTimer_waiting : bool
}.

(** The globals after static initialisation and the constructor of
    [MctpBinding]. *)
Definition initial_state : State := mkState [] true false.

Inductive error_code := success | operation_aborted | other_error.

(** [std::remove_if] with the delivering predicate of the timer handler,
    followed by [erase]: entries whose delay is positive are kept, the
    others are sent as they are visited. *)
Fixpoint remove_if_deliver (q : list PendingResponse)
  : trace * list PendingResponse :=
  match q with
  | [] => ([], [])
  | resp :: rest =>
      let (t, kept) := remove_if_deliver rest in
      if 0 <? fst resp then (t, resp :: kept)
      else (sendMessageReceivedSignal (snd resp) ++ t, kept)
  end.

(** [resp.first -= retryTimeMilliSec]. *)
Definition decrement (resp : PendingResponse) : PendingResponse :=
  (fst resp - retryTimeMilliSec, snd resp).

(** [processResponse]: clears [timerExpired], sets the expiry and
    registers the handler.  Setting the expiry would cancel a wait that
    is still outstanding; the process calls [processResponse] only from
    the handler itself and from the matcher when [timerExpired] is set,
    and in both cases no wait is outstanding. *)
Definition processResponse (st : State) : State :=
  mkState (respQueue st) false true.

(** The handler registered by [processResponse], run when the wait
    completes with [ec].  Running it consumes the registration. *)
Definition timer_handler (ec : error_code) (st : State) : State * trace :=
  match ec with
  | operation_aborted =>
      (mkState (respQueue st) (timerExpired st) false,
       [Log INFO "delayTimer operation_aborted"])
  | other_error =>
      (mkState (respQueue st) (timerExpired st) false,
       [Log ERR "Timer failed"])
  | success =>
      let (t, kept) := remove_if_deliver (respQueue st) in
      match kept with
      | [] =>
          (mkState [] true false,
           t ++ [Log INFO "Response queue empty, canceling timer"])
      | _ :: _ =>
          (processResponse
             (mkState (map decrement kept) (timerExpired st) false), t)
      end
  end.

(** The [push_back] of the matcher and the start of the timer when it
    is not running. *)
Definition enqueue (delay : Z) (s : MessageReceivedSignal) (st : State)
  : State :=
  let st1 :=
    mkState (respQueue st ++ [(delay, s)]) (timerExpired st)
            (delayTimer_waiting st) in
  if timerExpired st1 then processResponse st1 else st1.

(** The delay policy applied to a matched rule. *)
Definition respond (delay : Z) (s : MessageReceivedSignal) (st : State)
  : State * trace :=
  if delay =? 0 then (st, sendMessageReceivedSignal s)
  else if delay =? -1 then
    (st, [Log INFO "mctp-emulator: No response, Infinite delay"])
  else if 0 <? delay then
    (enqueue delay s st,
     [Log INFO "mctp-emulator: Response added to process queue"])
  else (st, [Log ERR "mctp-emulator: Invalid processing delay"]).

(** ** The request matcher *)

(** [req.insert(req.begin(), reqHeader...)] followed by [req == payload]. *)
Definition rule_matches (reqHeader : list Z) (r : Rule) (payload : list Z)
  : bool :=
  vec_eqb (reqHeader ++ req r) payload.

(** The loop over the rule list. *)
Fixpoint match_loop (reqHeader payload : list Z) (mtype eid tag : Z)
    (owner : bool) (items : list json) (st : State) : State * trace :=
  match items with
  | [] => (st, [Log INFO "mctp-emulator: No matching request found"])
  | iter :: rest =>
      match decode_rule iter with
      | None =>
          let (st', t) :=
            match_loop reqHeader payload mtype eid tag owner rest st in
          (st', Log INFO "mctp-emulator: Parsing commands.."
                  :: CerrJsonException :: t)
      | Some r =>
          if rule_matches reqHeader r payload then
            let (st', t) :=
              respond (processingDelayMilliSec r)
                      (mkSignal mtype eid tag owner (rule_response r)) st in
            (st', Log INFO "mctp-emulator: Parsing commands.."
                    :: Log INFO "mctp-emulator: Request Matched" :: t)
          else
            let (st', t) :=
              match_loop reqHeader payload mtype eid tag owner rest st in
            (st', Log INFO "mctp-emulator: Parsing commands.." :: t)
      end
  end.

(** The shape of [mctp_vdpci_intel_hdr].  Its declaration
    ([libmctp-vdpci.h]) is outside the sources, so the size of the
    structure and the offsets of the fields the matcher reads are
    parameters. *)
Record vdpci_layout := mkLayout {
  hdr_size : nat;
  vendor_id_offset : nat;
  reserved_offset : nat;
  vendor_type_code_offset : nat
}.

(** Every field lies inside the structure. *)
Definition layout_ok (L : vdpci_layout) : Prop :=
  (vendor_id_offset L + 2 <= hdr_size L)%nat
  /\ (reserved_offset L < hdr_size L)%nat
  /\ (vendor_type_code_offset L < hdr_size L)%nat.

(** Modelled from the spec: the declaration of the vendor header is not
    in the sources; the layout the specification assumes is a 2-byte
    big-endian vendor identifier, then a 1-byte sub-type code, then a
    1-byte reserved field. *)
Definition spec_layout : vdpci_layout := mkLayout 4 0 3 2.

Definition vendorMap : gmap Z string := {[ 0x8086 := "Intel" ]}.

Inductive outcome :=
| Returned
| Threw_out_of_range.  (* std::out_of_range from payload.at(0) *)

Record Result := mkResult {
  res_outcome : outcome;
  res_state : State;
  res_trace : trace
}.

Definition returned (stt : State * trace) : Result :=
  mkResult Returned (fst stt) (snd stt).

(** [processMctpCommand].  [file] is what the configuration file holds
    when the call is made: [None] when it cannot be opened, otherwise
    the value [json::parse] produces from it. *)
Definition processMctpCommand (L : vdpci_layout) (file : option json)
    (dstEid : Z) (payload : list Z) (st : State) : Result :=
  let eid := dstEid in
  let tag := 0 in
  let owner := false in
  match nth_error payload 0 with
  | None => mkResult Threw_out_of_range st []
  | Some mtype =>
      match file with
      | None => returned (st, [OpenConfig; CerrUnableToOpen])
      | Some reqResp =>
          let messageType := getMessageType mtype in
          match json_index reqResp messageType with
          | None =>
              returned
                (st, OpenConfig :: getMessageType_log mtype
                       ++ [CerrJsonException])
          | Some reqRespData =>
              if String.eqb messageType "VDPCI" then
                if (List.length payload <? hdr_size L)%nat then
                  returned
                    (st, OpenConfig :: getMessageType_log mtype
                           ++ [Log WARNING
                                 "mctp-emulator: Invalid VDPCI message: Insufficient bytes in Payload"])
                else
                  let vendor_id :=
                    be16toh (nth (vendor_id_offset L) payload 0)
                            (nth (S (vendor_id_offset L)) payload 0) in
                  let reserved := nth (reserved_offset L) payload 0 in
                  let vendor_type_code :=
                    nth (vendor_type_code_offset L) payload 0 in
                  match vendorMap !! vendor_id with
                  | None =>
                      returned
                        (st, OpenConfig :: getMessageType_log mtype
                               ++ [Log WARNING
                                     "mctp-emulator: Invalid VDPCI message: Unknown Vendor ID"])
                  | Some vendorString =>
                      if String.eqb vendorString "Intel"
                         && negb (reserved =? 0x80) then
                        returned
                          (st, OpenConfig :: getMessageType_log mtype
                                 ++ [Log WARNING
                                       "mctp-emulator: Invalid VDPCI message: Unexpected value in reserved byte"])
                      else
                        match
                          match json_index reqRespData vendorString with
                          | Some v => json_index v (to_string vendor_type_code)
                          | None => None
                          end
                        with
                        | None =>
                            returned
                              (st, OpenConfig :: getMessageType_log mtype
                                     ++ [CerrJsonException])
                        | Some rules =>
                            let (st', t) :=
                              match_loop (firstn (hdr_size L) payload) payload
                                         mtype eid tag owner
                                         (json_items rules) st in
                            returned
                              (st', OpenConfig :: getMessageType_log mtype
                                      ++ t)
                        end
                  end
              else
                let (st', t) :=
                  match_loop [mtype] payload mtype eid tag owner
                             (json_items reqRespData) st in
                returned (st', OpenConfig :: getMessageType_log mtype ++ t)
          end
      end
  end.

(** ** The event loop *)

(** What can happen to the process after it has started: a call of
    [SendMctpMessagePayload], the completion of the outstanding timer
    wait with some error code, or a change of the configuration file on
    disk. *)
Inductive event :=
| Inbound (dstEid : Z) (payload : list Z)
| TimerFire (ec : error_code)
| ConfigChange (file : option json).

Record World := mkWorld {
  config_file : option json;
  globals : State
}.

(** The process right after start-up, with [file] on disk. *)
Definition start (file : option json) : World := mkWorld file initial_state.

Definition step (L : vdpci_layout) (e : event) (w : World) : World * trace :=
  match e with
  | Inbound dstEid payload =>
      let r := processMctpCommand L (config_file w) dstEid payload (globals w) in
      (mkWorld (config_file w) (res_state r), res_trace r)
  | TimerFire ec =>
      if delayTimer_waiting (globals w) then
        let (st, t) := timer_handler ec (globals w) in
        (mkWorld (config_file w) st, t)
      else (w, [])
  | ConfigChange file => (mkWorld file (globals w), [])
  end.

Fixpoint run (L : vdpci_layout) (evs : list event) (w : World)
  : World * trace :=
  match evs with
  | [] => (w, [])
  | e :: rest =>
      let (w1, t1) := step L e w in
      let (w2, t2) := run L rest w1 in
      (w2, t1 ++ t2)
  end.


(** No timer completion in the list carries an error or a cancellation. *)
Fixpoint error_free (evs : list event) : bool :=
  match evs with
  | [] => true
  | TimerFire success :: rest => error_free rest
  | TimerFire _ :: _ => false
  | _ :: rest => error_free rest
  end.

(** ** The tick as the specification words it *)

(** Every remaining delay is decremented by the tick interval first;
    the entries then at or below zero are delivered and removed. *)
Definition spec_tick (q : list PendingResponse)
  : list MessageReceivedSignal * list PendingResponse :=
  let q' := map decrement q in
  (map snd (List.filter (fun r => fst r <=? 0) q'),
   List.filter (fun r => 0 <? fst r) q').


(** ** Derived notions used in the statements *)

(** The codes to which [getMessageType] gives a name of their own. *)
Definition assigned_codes : list Z :=
  [0x00; 0x01; 0x02; 0x03; 0x04; 0x05; 0x7E; 0x7F].

(** The line the loop logs when a rule matches. *)
Definition matched_msg : string := "mctp-emulator: Request Matched".

(** The header prefix the matcher puts before each configured request:
    the raw vendor header for VDPCI messages, the message-type byte
    otherwise. *)
Definition header_prefix (L : vdpci_layout) (mtype : Z) (payload : list Z)
  : list Z :=
  if String.eqb (getMessageType mtype) "VDPCI"
  then firstn (hdr_size L) payload
  else [mtype].

(** A call that returns without reaching a matching rule and without
    touching the queue. *)
Definition dropped (st : State) (r : Result) : Prop :=
  res_outcome r = Returned /\ res_state r = st
  /\ signals (res_trace r) = []
  /\ ~ logged INFO matched_msg (res_trace r).

(** A call that runs the matching loop over [items]. *)
Definition scanned (L : vdpci_layout) (eid mtype : Z) (payload : list Z)
    (items : list json) (st : State) (r : Result) : Prop :=
  let lp :=
    match_loop (header_prefix L mtype payload) payload mtype eid 0 false
               items st in
  res_outcome r = Returned /\ res_state r = fst lp
  /\ res_trace r = OpenConfig :: getMessageType_log mtype ++ snd lp.

(** The rule list the command scans for a payload, when it gets as far
    as the loop: the list stored under the category, or, for a VDPCI
    message with a valid vendor header, the list stored under the vendor
    name and the sub-type code. *)
Definition lookup (L : vdpci_layout) (file : option json) (payload : list Z)
  : option (list json) :=
  match nth_error payload 0, file with
  | Some mtype, Some reqResp =>
      match json_index reqResp (getMessageType mtype) with
      | None => None
      | Some reqRespData =>
          if String.eqb (getMessageType mtype) "VDPCI" then
            if (List.length payload <? hdr_size L)%nat then None
            else
              match
                vendorMap !! be16toh (nth (vendor_id_offset L) payload 0)
                                     (nth (S (vendor_id_offset L)) payload 0)
              with
              | None => None
              | Some vendorString =>
                  if String.eqb vendorString "Intel"
                     && negb (nth (reserved_offset L) payload 0 =? 0x80)
                  then None
                  else
                    match json_index reqRespData vendorString with
                    | Some v =>
                        option_map json_items
                          (json_index v
                             (to_string
                                (nth (vendor_type_code_offset L) payload 0)))
                    | None => None
                    end
              end
          else Some (json_items reqRespData)
      end
  | _, _ => None
  end.

(** The first entry of a rule list that decodes to a rule matching the
    payload. *)
Fixpoint first_match (reqHeader payload : list Z) (items : list json)
  : option Rule :=
  match items with
  | [] => None
  | iter :: rest =>
      match decode_rule iter with
      | Some r =>
          if rule_matches reqHeader r payload then Some r
          else first_match reqHeader payload rest
      | None => first_match reqHeader payload rest
      end
  end.

(** The rule a payload selects under a configuration. *)
Definition selected_rule (L : vdpci_layout) (file : option json)
    (payload : list Z) : option Rule :=
  match lookup L file payload, nth_error payload 0 with
  | Some items, Some mtype =>
      first_match (header_prefix L mtype payload) payload items
  | _, _ => None
  end.

(** A trace without a signal and without a logged match. *)
Definition quiet (t : trace) : Prop :=
  signals t = [] /\ ~ logged INFO matched_msg t.

(** ** A sample configuration *)

Definition rule_entry (delay : option Z) (request response : list Z) : json :=
  JObj ((match delay with
         | Some d => [("processing-delay", JNum d)]
         | None => []
         end)
        ++ [("request", JArr (map JNum request));
            ("response", JArr (map JNum response))]).

Definition entry_other : json := rule_entry None [0x03] [0x07].
Definition entry_first : json := rule_entry None [0x02] [0x09].
Definition entry_second : json := rule_entry None [0x02] [0xAA].
Definition entry_delayed : json := rule_entry (Some 50) [0x04] [0x05].
Definition entry_never : json := rule_entry (Some (-1)) [0x06] [0x01].
Definition entry_invalid : json := rule_entry (Some (-7)) [0x08] [0x01].

Definition sample_config : json :=
  JObj [("PLDM",
         JArr [entry_other; entry_first; entry_second; entry_delayed;
               entry_never; entry_invalid])].

(** The same document with the two rules for request [0x02] swapped. *)
Definition swapped_config : json :=
  JObj [("PLDM",
         JArr [entry_other; entry_second; entry_first; entry_delayed;
               entry_never; entry_invalid])].

(** ** Notions about runs *)

(** The destination endpoint ids of the inbound calls of a run. *)
Fixpoint inbound_eids (evs : list event) : list Z :=
  match evs with
  | [] => []
  | Inbound dstEid _ :: rest => dstEid :: inbound_eids rest
  | _ :: rest => inbound_eids rest
  end.

(** The number of inbound calls of a run that carry at least one byte. *)
Fixpoint inbound_calls (evs : list event) : nat :=
  match evs with
  | [] => O
  | Inbound _ (_ :: _) :: rest => S (inbound_calls rest)
  | _ :: rest => inbound_calls rest
  end.

(** A response addressed as a responder does on behalf of one of the
    endpoint ids [eids]. *)
Definition addressed (eids : list Z) (s : MessageReceivedSignal) : Prop :=
  In (srcEid s) eids /\ msgTag s = 0 /\ tagOwner s = false.

(** The bookkeeping of the timer: the flag [timerExpired] is set exactly
    when the queue is empty, and a running timer has the flag cleared. *)
Definition flag_tracks_queue (st : State) : Prop :=
  (timerExpired st = true <-> respQueue st = [])
  /\ (delayTimer_waiting st = true -> timerExpired st = false).

(** The timer runs whenever the flag says so. *)
Definition timer_alive (st : State) : Prop :=
  timerExpired st = false -> delayTimer_waiting st = true.

(** ** The method of the D-Bus interface *)

(** The handler the constructor of [MctpBinding] registers for
    [SendMctpMessagePayload]: it passes the destination endpoint id and
    the payload to [processMctpCommand] and answers with the return
    code 0.  [None] stands for the call that ends with the exception of
    [processMctpCommand] instead of a return code. *)
Definition SendMctpMessagePayload (L : vdpci_layout) (file : option json)
    (DstEid MsgTag : Z) (TagOwner : bool) (payload : list Z) (st : State)
  : option Z * State * trace :=
  let rc := 0 in
  let r := processMctpCommand L file DstEid payload st in
  match res_outcome r with
  | Returned =>
      (Some rc, res_state r,
       Log INFO "mctp-emulator: Received Payload" :: res_trace r)
  | Threw_out_of_range =>
      (None, res_state r,
       Log INFO "mctp-emulator: Received Payload" :: res_trace r)
  end.

(** The endpoint id the constructor registers as the property [Eid]. *)
Definition registered_eid : Z := 8.

(** ** Notions about the delivery schedule *)

(** [k] timer completions without error. *)
Definition ticks (k : nat) : list event := repeat (TimerFire success) k.

(** The tick, counted from 1, on which a running queue sends an entry
    whose remaining delay is [d]. *)
Definition due_tick (d : Z) : nat := S (Z.to_nat ((d + 9) / 10)).

(** The entries of a queue that are due on tick [i]. *)
Definition due_on (i : nat) (q : list PendingResponse)
  : list MessageReceivedSignal :=
  map snd (List.filter (fun e => (due_tick (fst e) =? i)%nat) q).

(** A payload that is answered, at once or later: it selects a rule
    whose delay is not negative. *)
Definition answered (L : vdpci_layout) (file : option json)
    (payload : list Z) : bool :=
  match selected_rule L file payload with
  | Some r => 0 <=? processingDelayMilliSec r
  | None => false
  end.

(** The number of answered inbound calls of a run that starts with
    [file] on disk. *)
Fixpoint answered_calls (L : vdpci_layout) (evs : list event)
    (file : option json) : nat :=
  match evs with
  | [] => O
  | Inbound _ payload :: rest =>
      ((if answered L file payload then 1 else 0)
       + answered_calls L rest file)%nat
  | ConfigChange file' :: rest => answered_calls L rest file'
  | TimerFire _ :: rest => answered_calls L rest file
  end.

(** A run without its timer completions. *)
Fixpoint drop_timer (evs : list event) : list event :=
  match evs with
  | [] => []
  | TimerFire _ :: rest => drop_timer rest
  | e :: rest => e :: drop_timer rest
  end.

(** A value the library accepts as the left operand of [j[key]]. *)
Definition indexable (j : json) : bool :=
  match j with
  | JNull | JObj _ => true
  | _ => false
  end.

(** A value of [uint8_t]. *)
Definition is_byte (z : Z) : Prop := 0 <= z < 256.

(** The bytes [0x00] to [0xFF]. *)
Definition all_bytes : list Z := map Z.of_nat (seq 0 256).

(** A remaining delay that the subtraction of the timer handler cannot
    take out of the range of [int]. *)
Definition delay_ok (e : PendingResponse) : Prop :=
  - retryTimeMilliSec < fst e <= INT_MAX
  /\ INT_MIN <= fst e - retryTimeMilliSec <= INT_MAX.

(** A layout in which the message-type byte comes first, followed by
    the vendor identifier, the reserved byte and the sub-type code; it
    serves as an instance in which a VDPCI payload can carry Intel's
    identifier. *)
Definition type_first_layout : vdpci_layout := mkLayout 5 1 3 4.

(** A configuration with one rule for Intel's sub-type code 1. *)
Definition vendor_config : json :=
  JObj [("VDPCI",
         JObj [("Intel",
                JObj [("1", JArr [rule_entry None [0x05] [0x06]])])])].

(** The entries of a rule list that decode to a rule. *)
Definition decodable (items : list json) : list json :=
  List.filter
    (fun iter => match decode_rule iter with Some _ => true | None => false end)
    items.

(** * Properties *)

(** ** Vectors and traces *)

Lemma vec_eqb_eq (a b : list Z) : vec_eqb a b = true <-> a = b.
Proof.
  unfold vec_eqb. revert b.
  induction a as [|x a IH]; intros [|y b]; simpl; split; intros H;
    try reflexivity; try discriminate.
  - apply andb_prop in H as [Hlen Hall].
    apply andb_prop in Hall as [Hxy Hall].
    apply Z.eqb_eq in Hxy. subst y. f_equal.
    apply IH. now rewrite Hlen, Hall.
  - injection H as -> ->.
    rewrite Z.eqb_refl. simpl.
    now apply IH.
Qed.

Lemma vec_eqb_length (a b : list Z) :
  vec_eqb a b = true -> List.length a = List.length b.
Proof. intros H. apply vec_eqb_eq in H. now subst. Qed.

Lemma signals_app (t1 t2 : trace) : signals (t1 ++ t2) = signals t1 ++ signals t2.
Proof.
  induction t1 as [|e t1 IH]; simpl; [reflexivity|].
  destruct e; simpl; now rewrite IH.
Qed.

Lemma config_reads_app (t1 t2 : trace) :
  config_reads (t1 ++ t2) = (config_reads t1 + config_reads t2)%nat.
Proof.
  induction t1 as [|e t1 IH]; simpl; [reflexivity|].
  destruct e; simpl; now rewrite IH.
Qed.

(** ** The classifier *)


Lemma getMessageType_cases (b : Z) :
  In b assigned_codes \/ getMessageType b = "Unknown".
Proof.
  unfold getMessageType, assigned_codes,
    MCTP_MESSAGE_TYPE_MCTP_CTRL, MCTP_MESSAGE_TYPE_PLDM, MCTP_MESSAGE_TYPE_NCSI,
    MCTP_MESSAGE_TYPE_ETHERNET, MCTP_MESSAGE_TYPE_NVME, MCTP_MESSAGE_TYPE_SPDM,
    MCTP_MESSAGE_TYPE_VDPCI, MCTP_MESSAGE_TYPE_VDIANA.
  repeat match goal with
         | |- context [?x =? ?y] =>
             destruct (Z.eqb_spec x y) as [->|?]; [left; simpl; tauto|]
         end.
  now right.
Qed.

(** C9. The classifier is total: every value (so every byte 0x00-0xFF)
    is given one of the nine categories, the eight assigned codes map to
    their documented categories, and every other value falls back to
    Unknown. *)
Theorem getMessageType_total :
  (forall b : Z, exists c : MessageCategory, getMessageType b = category_name c)
  /\ getMessageType 0x00 = category_name Control
  /\ getMessageType 0x01 = category_name PLDM
  /\ getMessageType 0x02 = category_name NetworkSideband
  /\ getMessageType 0x03 = category_name Ethernet
  /\ getMessageType 0x04 = category_name StorageMgmt
  /\ getMessageType 0x05 = category_name SecurityProtocol
  /\ getMessageType 0x7E = category_name VendorPCI
  /\ getMessageType 0x7F = category_name VendorIANA
  /\ (forall b : Z,
        In b assigned_codes \/ getMessageType b = category_name Unknown).
Proof.
  repeat split; try reflexivity.
  - intros b. destruct (getMessageType_cases b) as [Hin|Hun].
    + simpl in Hin.
      repeat (destruct Hin as [<-|Hin];
              [first [ now exists Control | now exists PLDM
                     | now exists NetworkSideband | now exists Ethernet
                     | now exists StorageMgmt | now exists SecurityProtocol
                     | now exists VendorPCI | now exists VendorIANA ]|]).
      contradiction.
    + exists Unknown. exact Hun.
  - intros b. apply getMessageType_cases.
Qed.

(** ** The matching loop *)

Ltac split_loop :=
  match goal with
  | |- context [match_loop ?h ?p ?m ?e ?g ?o ?i ?s] =>
      let st' := fresh "st'" in
      let t := fresh "t" in
      let E := fresh "Eloop" in
      destruct (match_loop h p m e g o i s) as [st' t] eqn:E
  | |- context [respond ?d ?s ?st] =>
      let st' := fresh "st'" in
      let t := fresh "t" in
      let E := fresh "Eresp" in
      destruct (respond d s st) as [st' t] eqn:E
  end.


Lemma match_loop_logs_match reqHeader payload mtype eid tag owner items st :
  logged INFO matched_msg
         (snd (match_loop reqHeader payload mtype eid tag owner items st))
  <-> exists iter r,
        In iter items /\ decode_rule iter = Some r
        /\ rule_matches reqHeader r payload = true.
Proof.
  unfold logged, matched_msg.
  induction items as [|iter rest IH]; simpl.
  - split.
    + intros [H|[]]. discriminate H.
    + intros (i & r & [] & _).
  - destruct (decode_rule iter) as [r|] eqn:Hdec.
    + destruct (rule_matches reqHeader r payload) eqn:Hm.
      * split_loop. simpl. split.
        -- intros _. exists iter, r. auto.
        -- intros _. right. now left.
      * split_loop. simpl in *. split.
        -- intros [H|H]; [discriminate H|].
           apply IH in H as (i & r' & Hin & Hd & Hr).
           exists i, r'. auto.
        -- intros (i & r' & [<-|Hin] & Hd & Hr).
           ++ rewrite Hdec in Hd. injection Hd as <-. congruence.
           ++ right. apply IH. exists i, r'. auto.
    + split_loop. simpl in *. split.
      * intros [H|[H|H]]; try discriminate H.
        apply IH in H as (i & r' & Hin & Hd & Hr).
        exists i, r'. auto.
      * intros (i & r' & [<-|Hin] & Hd & Hr).
        -- congruence.
        -- right. right. apply IH. exists i, r'. auto.
Qed.


Ltac not_logged :=
  unfold logged, matched_msg, getMessageType_log; simpl;
  intros Hlog;
  repeat match goal with
         | H : _ \/ _ |- _ => destruct H as [H|H]
         | H : False |- _ => destruct H
         | H : Log _ _ = Log _ _ |- _ => discriminate H
         | H : OpenConfig = _ |- _ => discriminate H
         | H : CerrUnableToOpen = _ |- _ => discriminate H
         | H : CerrJsonException = _ |- _ => discriminate H
         end.

(** The command is the lookup followed by the loop. *)
Lemma processMctpCommand_lookup L file eid mtype rest st :
  let r := processMctpCommand L file eid (mtype :: rest) st in
  match lookup L file (mtype :: rest) with
  | Some items => scanned L eid mtype (mtype :: rest) items st r
  | None => dropped st r
  end.
Proof.
  unfold processMctpCommand, lookup. cbn [nth_error].
  destruct file as [reqResp|];
    [|repeat split; not_logged].
  destruct (json_index reqResp (getMessageType mtype)) as [reqRespData|];
    [|repeat split; not_logged].
  destruct (String.eqb (getMessageType mtype) "VDPCI") eqn:Hv.
  - destruct (List.length (mtype :: rest) <? hdr_size L)%nat;
      [repeat split; not_logged|].
    destruct (vendorMap !! _) as [vendorString|];
      [|repeat split; not_logged].
    destruct (String.eqb vendorString "Intel" && _);
      [repeat split; not_logged|].
    destruct (json_index reqRespData vendorString) as [v|];
      [|repeat split; not_logged].
    destruct (json_index v _) as [rules|]; cbn [option_map];
      [|repeat split; not_logged].
    unfold scanned, header_prefix. rewrite Hv.
    split_loop. simpl. auto.
  - unfold scanned, header_prefix. rewrite Hv.
    split_loop. simpl. auto.
Qed.

Lemma processMctpCommand_cases L file eid mtype rest st :
  let r := processMctpCommand L file eid (mtype :: rest) st in
  dropped st r \/ exists items, scanned L eid mtype (mtype :: rest) items st r.
Proof.
  intros r. pose proof (processMctpCommand_lookup L file eid mtype rest st) as H.
  cbv zeta in H. fold r in H.
  destruct (lookup L file (mtype :: rest)) as [items|]; eauto.
Qed.

(** C5. A rule matches exactly when the header prefix followed by its
    configured request is, byte for byte, the whole payload: this is
    what the comparison of the loop decides, and a match is logged by
    the loop, and by the whole command, exactly when an entry of the
    scanned list decodes to such a rule.  A payload that extends the
    request and one that stops short of it are both rejected. *)
Theorem exact_match_only :
  (forall reqHeader r payload,
      rule_matches reqHeader r payload = true <-> reqHeader ++ req r = payload)
  /\ (forall reqHeader payload mtype eid tag owner items st,
        logged INFO matched_msg
               (snd (match_loop reqHeader payload mtype eid tag owner items st))
        <-> exists iter r,
              In iter items /\ decode_rule iter = Some r
              /\ reqHeader ++ req r = payload)
  /\ (forall L file dstEid payload st,
        logged INFO matched_msg
               (res_trace (processMctpCommand L file dstEid payload st))
        <-> exists mtype items iter r,
              nth_error payload 0 = Some mtype
              /\ lookup L file payload = Some items
              /\ In iter items /\ decode_rule iter = Some r
              /\ header_prefix L mtype payload ++ req r = payload)
  /\ rule_matches [0x01] (mkRule 0 [0x02] []) [0x01; 0x02; 0x03] = false
  /\ rule_matches [0x01] (mkRule 0 [0x02] []) [0x01] = false
  /\ rule_matches [0x01] (mkRule 0 [0x02] []) [0x01; 0x02] = true.
Proof.
  assert (Hrule : forall reqHeader r payload,
             rule_matches reqHeader r payload = true
             <-> reqHeader ++ req r = payload)
    by (intros; apply vec_eqb_eq).
  assert (Hloop : forall reqHeader payload mtype eid tag owner items st,
             logged INFO matched_msg
                    (snd (match_loop reqHeader payload mtype eid tag owner
                                     items st))
             <-> exists iter r,
                   In iter items /\ decode_rule iter = Some r
                   /\ reqHeader ++ req r = payload).
  { intros. rewrite match_loop_logs_match.
    split; intros (i & r & Hin & Hd & Hm); exists i, r;
      (split; [exact Hin|split; [exact Hd|now apply Hrule]]). }
  split; [exact Hrule|]. split; [exact Hloop|].
  split; [|repeat split; reflexivity].
  intros L file dstEid payload st.
  destruct payload as [|mtype rest].
  { split; [intros []|]. intros (m & _ & _ & _ & H & _). discriminate H. }
  pose proof (processMctpCommand_lookup L file dstEid mtype rest st) as H.
  cbv zeta in H.
  destruct (lookup L file (mtype :: rest)) as [items|].
  - destruct H as (_ & _ & Htr). rewrite Htr.
    assert (Hin : logged INFO matched_msg
                    (OpenConfig :: getMessageType_log mtype
                       ++ snd (match_loop
                                 (header_prefix L mtype (mtype :: rest))
                                 (mtype :: rest) mtype dstEid 0 false items st))
                  <-> logged INFO matched_msg
                        (snd (match_loop
                                (header_prefix L mtype (mtype :: rest))
                                (mtype :: rest) mtype dstEid 0 false items st))).
    { unfold logged, getMessageType_log. simpl. split.
      - intros [Hf|[Hf|Hf]]; [discriminate Hf|discriminate Hf|exact Hf].
      - intros Hf. right. now right. }
    rewrite Hin, Hloop. split.
    + intros (iter & r & Hi & Hd & Heq). exists mtype, items, iter, r. auto.
    + intros (m & items' & iter & r & Hm & Hl & Hi & Hd & Heq).
      simpl in Hm. injection Hm as <-. injection Hl as <-.
      exists iter, r. auto.
  - destruct H as (_ & _ & _ & Hno). split; [contradiction|].
    intros (m & items' & _ & _ & _ & Hl & _). discriminate Hl.
Qed.

(** C8. With an empty payload the read of the message-type byte throws:
    the call ends with the exception before the configuration is opened,
    before anything is classified, logged, matched or sent, and leaves
    the queue as it was; every non-empty payload makes the call return
    normally. *)
Theorem empty_payload_throws :
  (forall L file dstEid st,
      processMctpCommand L file dstEid [] st
      = mkResult Threw_out_of_range st [])
  /\ (forall L file dstEid b rest st,
        res_outcome (processMctpCommand L file dstEid (b :: rest) st)
        = Returned).
Proof.
  split; [reflexivity|].
  intros L file dstEid b rest st.
  destruct (processMctpCommand_cases L file dstEid b rest st)
    as [(H & _)|(items & H & _)]; exact H.
Qed.

(** ** The delay policy and the loop *)

Lemma respond_cases d s st :
  (d = 0 /\ respond d s st = (st, sendMessageReceivedSignal s))
  \/ (d = -1
      /\ respond d s st
         = (st, [Log INFO "mctp-emulator: No response, Infinite delay"]))
  \/ (0 < d
      /\ respond d s st
         = (enqueue d s st,
            [Log INFO "mctp-emulator: Response added to process queue"]))
  \/ (d < -1
      /\ respond d s st
         = (st, [Log ERR "mctp-emulator: Invalid processing delay"])).
Proof.
  unfold respond.
  destruct (Z.eqb_spec d 0) as [->|H0]; [now left|].
  destruct (Z.eqb_spec d (-1)) as [->|H1]; [right; now left|].
  destruct (Z.ltb_spec 0 d) as [Hpos|Hneg].
  - right. right. now left.
  - right. right. right. split; [lia|reflexivity].
Qed.

Lemma enqueue_queue d s st : respQueue (enqueue d s st) = respQueue st ++ [(d, s)].
Proof. unfold enqueue. simpl. now destruct (timerExpired st). Qed.

Lemma match_loop_first_match reqHeader payload mtype eid tag owner items st :
  let lp := match_loop reqHeader payload mtype eid tag owner items st in
  match first_match reqHeader payload items with
  | Some r =>
      let act :=
        respond (processingDelayMilliSec r)
                (mkSignal mtype eid tag owner (rule_response r)) st in
      fst lp = fst act
      /\ exists pre, snd lp = pre ++ snd act /\ signals pre = []
  | None => fst lp = st /\ quiet (snd lp)
  end.
Proof.
  induction items as [|iter rest IH]; simpl.
  - split; [reflexivity|]. split; [reflexivity|]. not_logged.
  - destruct (decode_rule iter) as [r|].
    + destruct (rule_matches reqHeader r payload).
      * split_loop. simpl. split; [reflexivity|].
        exists [Log INFO "mctp-emulator: Parsing commands..";
                Log INFO "mctp-emulator: Request Matched"].
        split; reflexivity.
      * split_loop. simpl in *.
        destruct (first_match reqHeader payload rest) as [r'|].
        -- destruct IH as (Hst & pre & Ht & Hsig). split; [exact Hst|].
           exists (Log INFO "mctp-emulator: Parsing commands.." :: pre).
           rewrite Ht. split; [reflexivity|exact Hsig].
        -- destruct IH as (Hst & Hsig & Hlog). split; [exact Hst|].
           split; [exact Hsig|].
           intros [H|H]; [discriminate H|]. now apply Hlog.
    + split_loop. simpl in *.
      destruct (first_match reqHeader payload rest) as [r'|].
      * destruct IH as (Hst & pre & Ht & Hsig). split; [exact Hst|].
        exists (Log INFO "mctp-emulator: Parsing commands.."
                  :: CerrJsonException :: pre).
        rewrite Ht. split; [reflexivity|exact Hsig].
      * destruct IH as (Hst & Hsig & Hlog). split; [exact Hst|].
        split; [exact Hsig|].
        intros [H|[H|H]]; [discriminate H|discriminate H|]. now apply Hlog.
Qed.

(** What a call does, in terms of the rule its payload selects. *)
Lemma processMctpCommand_selected L file eid mtype rest st :
  let res := processMctpCommand L file eid (mtype :: rest) st in
  match selected_rule L file (mtype :: rest) with
  | Some r =>
      let act :=
        respond (processingDelayMilliSec r)
                (mkSignal mtype eid 0 false (rule_response r)) st in
      res_outcome res = Returned /\ res_state res = fst act
      /\ exists pre, res_trace res = pre ++ snd act /\ signals pre = []
  | None =>
      res_outcome res = Returned /\ res_state res = st
      /\ signals (res_trace res) = []
  end.
Proof.
  intros res.
  pose proof (processMctpCommand_lookup L file eid mtype rest st) as H.
  cbv zeta in H. fold res in H.
  unfold selected_rule. cbn [nth_error].
  destruct (lookup L file (mtype :: rest)) as [items|].
  - destruct H as (Hout & Hst & Htr).
    pose proof (match_loop_first_match
                  (header_prefix L mtype (mtype :: rest)) (mtype :: rest)
                  mtype eid 0 false items st) as Hlp.
    cbv zeta in Hlp.
    destruct (first_match _ _ items) as [r|].
    + destruct Hlp as (Hfst & pre & Hsnd & Hsig).
      split; [exact Hout|]. split; [congruence|].
      exists (OpenConfig :: getMessageType_log mtype ++ pre).
      rewrite Htr, Hsnd. split.
      * reflexivity.
      * simpl. exact Hsig.
    + destruct Hlp as (Hfst & Hsig & _).
      split; [exact Hout|]. split; [congruence|].
      rewrite Htr. simpl. exact Hsig.
  - destruct H as (Hout & Hst & Hsig & _). auto.
Qed.

(** C6. When several entries of the scanned list carry a request equal
    to the payload, the loop acts on the earliest one: it applies the
    delay policy to that rule's response and to nothing else, and it
    stops there, so that whatever follows the rule in the list has no
    influence on the result. *)
Theorem first_match_wins reqHeader payload mtype eid tag owner
    (before after : list json) (iter : json) (r : Rule) (st : State) :
  (forall i r', In i before -> decode_rule i = Some r'
                -> reqHeader ++ req r' <> payload) ->
  decode_rule iter = Some r ->
  reqHeader ++ req r = payload ->
  let lp :=
    match_loop reqHeader payload mtype eid tag owner
               (before ++ iter :: after) st in
  let act :=
    respond (processingDelayMilliSec r)
            (mkSignal mtype eid tag owner (rule_response r)) st in
  first_match reqHeader payload (before ++ iter :: after) = Some r
  /\ fst lp = fst act
  /\ signals (snd lp) = signals (snd act)
  /\ lp = match_loop reqHeader payload mtype eid tag owner
                     (before ++ [iter]) st.
Proof.
  intros Hbefore Hdec Heq.
  assert (Hm : rule_matches reqHeader r payload = true)
    by now apply vec_eqb_eq.
  assert (Hfirst : forall tail,
             first_match reqHeader payload (before ++ iter :: tail) = Some r).
  { intros tail. induction before as [|i before IH]; simpl.
    - now rewrite Hdec, Hm.
    - destruct (decode_rule i) as [r'|] eqn:Hi.
      + destruct (rule_matches reqHeader r' payload) eqn:Hr'.
        * exfalso. apply (Hbefore i r'); [now left|exact Hi|].
          now apply vec_eqb_eq.
        * apply IH. intros j rj Hj. apply Hbefore. now right.
      + apply IH. intros j rj Hj. apply Hbefore. now right. }
  cbv zeta. split; [apply Hfirst|].
  pose proof (match_loop_first_match reqHeader payload mtype eid tag owner
                (before ++ iter :: after) st) as Hlp.
  cbv zeta in Hlp. rewrite Hfirst in Hlp.
  destruct Hlp as (Hst & pre & Ht & Hsig).
  split; [exact Hst|]. split.
  - rewrite Ht, signals_app, Hsig. reflexivity.
  - clear Hst pre Ht Hsig Hfirst.
    induction before as [|i before IH]; simpl.
    + rewrite Hdec, Hm. reflexivity.
    + assert (IH' : match_loop reqHeader payload mtype eid tag owner
                      (before ++ iter :: after) st
                    = match_loop reqHeader payload mtype eid tag owner
                        (before ++ [iter]) st).
      { apply IH. intros j rj Hj. apply Hbefore. now right. }
      destruct (decode_rule i) as [r'|] eqn:Hi.
      * destruct (rule_matches reqHeader r' payload) eqn:Hr'.
        -- exfalso. apply (Hbefore i r'); [now left|exact Hi|].
           now apply vec_eqb_eq.
        -- now rewrite IH'.
      * now rewrite IH'.
Qed.

Lemma first_match_wins_witness :
  signals
    (snd (match_loop [0x01] [0x01; 0x02] 0x01 8 0 false
                     [entry_other; entry_first; entry_second] initial_state))
  = [mkSignal 0x01 8 0 false [0x09]].
Proof.
  refine (proj1 (proj2 (proj2
            (first_match_wins [0x01] [0x01; 0x02] 0x01 8 0 false
               [entry_other] [entry_second] entry_first
               (mkRule 0 [0x02] [0x09]) initial_state _ _ _)))).
  - intros i r' [<-|[]] Hd. vm_compute in Hd.
    injection Hd as <-. simpl. discriminate.
  - reflexivity.
  - reflexivity.
Defined.

(** ** Vendor header validation *)

(** Once the size check has passed, every field the validator reads
    lies inside the payload. *)
Lemma header_fields_in_bounds L (payload : list Z) :
  layout_ok L ->
  (List.length payload <? hdr_size L)%nat = false ->
  (S (vendor_id_offset L) < List.length payload)%nat
  /\ (reserved_offset L < List.length payload)%nat
  /\ (vendor_type_code_offset L < List.length payload)%nat
  /\ List.length (firstn (hdr_size L) payload) = hdr_size L.
Proof.
  intros (Hv & Hr & Ht) Hlen. apply Nat.ltb_ge in Hlen.
  rewrite length_firstn. lia.
Qed.

(** C7. A VDPCI payload that is shorter than the vendor header, or whose
    big-endian vendor identifier is not registered, or that names Intel
    with a reserved byte other than 0x80, is dropped: the call returns
    normally, sends no signal, and leaves the queue and the timer as
    they were. *)
Theorem vendor_rejection_drops L file dstEid payload st :
  nth_error payload 0 = Some MCTP_MESSAGE_TYPE_VDPCI ->
  let vendor_id :=
    be16toh (nth (vendor_id_offset L) payload 0)
            (nth (S (vendor_id_offset L)) payload 0) in
  ((List.length payload < hdr_size L)%nat
   \/ vendorMap !! vendor_id = None
   \/ (vendorMap !! vendor_id = Some "Intel"
       /\ nth (reserved_offset L) payload 0 <> 0x80)) ->
  let res := processMctpCommand L file dstEid payload st in
  res_outcome res = Returned
  /\ res_state res = st
  /\ signals (res_trace res) = [].
Proof.
  intros Hty vendor_id Hrej res.
  destruct payload as [|mtype rest]; [discriminate Hty|].
  simpl in Hty. injection Hty as ->.
  pose proof (processMctpCommand_lookup L file dstEid
                MCTP_MESSAGE_TYPE_VDPCI rest st) as H.
  cbv zeta in H. fold res in H.
  assert (Hnone : lookup L file (MCTP_MESSAGE_TYPE_VDPCI :: rest) = None).
  { unfold lookup. cbn [nth_error].
    destruct file as [reqResp|]; [|reflexivity].
    change (getMessageType MCTP_MESSAGE_TYPE_VDPCI) with "VDPCI".
    destruct (json_index reqResp "VDPCI") as [reqRespData|]; [|reflexivity].
    cbn [String.eqb Ascii.eqb Bool.eqb].
    destruct (Nat.ltb_spec (List.length (MCTP_MESSAGE_TYPE_VDPCI :: rest))
                           (hdr_size L)) as [Hshort|Hlong];
      [reflexivity|].
    fold vendor_id.
    destruct Hrej as [Hlen|[Hunk|[Hintel Hres]]].
    - lia.
    - now rewrite Hunk.
    - rewrite Hintel. cbn [String.eqb Ascii.eqb Bool.eqb andb].
      destruct (Z.eqb_spec
                  (nth (reserved_offset L) (MCTP_MESSAGE_TYPE_VDPCI :: rest) 0)
                  0x80) as [Heq|Hne]; [contradiction|reflexivity]. }
  rewrite Hnone in H. destruct H as (Hout & Hst & Hsig & _). auto.
Qed.

Lemma vendor_rejection_drops_witness :
  let res :=
    processMctpCommand spec_layout (Some sample_config) 8
                       [0x7E; 0x01; 0x00; 0x80] initial_state in
  res_outcome res = Returned
  /\ res_state res = initial_state
  /\ signals (res_trace res) = [].
Proof.
  apply (vendor_rejection_drops spec_layout (Some sample_config) 8
           [0x7E; 0x01; 0x00; 0x80] initial_state).
  - reflexivity.
  - right. left. vm_compute. reflexivity.
Defined.

(** ** The timer handler *)

Lemma remove_if_deliver_signals q :
  signals (fst (remove_if_deliver q))
  = map snd (List.filter (fun r => fst r <=? 0) q).
Proof.
  induction q as [|[d s] q IH]; simpl; [reflexivity|].
  destruct (remove_if_deliver q) as [t kept]. simpl in *.
  rewrite Z.leb_antisym.
  destruct (0 <? d); simpl; [exact IH|now rewrite IH].
Qed.

Lemma remove_if_deliver_kept q :
  snd (remove_if_deliver q) = List.filter (fun r => 0 <? fst r) q.
Proof.
  induction q as [|[d s] q IH]; simpl; [reflexivity|].
  destruct (remove_if_deliver q) as [t kept]. simpl in *.
  destruct (0 <? d); simpl; [now rewrite IH|exact IH].
Qed.

Lemma timer_handler_success_signals st :
  signals (snd (timer_handler success st))
  = map snd (List.filter (fun r => fst r <=? 0) (respQueue st)).
Proof.
  unfold timer_handler.
  pose proof (remove_if_deliver_signals (respQueue st)) as Hsig.
  destruct (remove_if_deliver (respQueue st)) as [t [|r kept]]; simpl in *.
  - rewrite signals_app. simpl. now rewrite app_nil_r.
  - exact Hsig.
Qed.

Lemma timer_handler_success_queue st :
  respQueue (fst (timer_handler success st))
  = map decrement (List.filter (fun r => 0 <? fst r) (respQueue st)).
Proof.
  unfold timer_handler.
  pose proof (remove_if_deliver_kept (respQueue st)) as Hkept.
  destruct (remove_if_deliver (respQueue st)) as [t [|r kept]]; simpl in *;
    now rewrite <- Hkept.
Qed.

(** The subtraction of the handler cannot overflow: it is applied only
    to entries whose delay is positive. *)
Lemma decrement_in_range (r : PendingResponse) :
  0 < fst r <= INT_MAX -> INT_MIN <= fst (decrement r) <= INT_MAX.
Proof. unfold decrement, retryTimeMilliSec, INT_MAX, INT_MIN. simpl. lia. Qed.

Lemma to_int32_range z : INT_MIN <= to_int32 z <= INT_MAX.
Proof.
  unfold to_int32, INT_MIN, INT_MAX.
  pose proof (Z.mod_pos_bound (z + 2 ^ 31) (2 ^ 32) ltac:(lia)). lia.
Qed.

Lemma to_int32_id z : INT_MIN <= z <= INT_MAX -> to_int32 z = z.
Proof.
  unfold to_int32, INT_MIN, INT_MAX. intros H.
  rewrite Z.mod_small; lia.
Qed.

(** C1, as the code has it. A tick first delivers, in queue order,
    exactly the entries whose remaining delay is at or below zero and
    removes them; only then, and only from the entries that remain, does
    it subtract the tick interval of 10.  The timer is stopped when
    nothing remains and re-armed otherwise. *)
Theorem timer_handler_delivers_then_decrements (st : State) :
  let expired := List.filter (fun r => fst r <=? 0) (respQueue st) in
  let kept := List.filter (fun r => 0 <? fst r) (respQueue st) in
  let st' := fst (timer_handler success st) in
  signals (snd (timer_handler success st)) = map snd expired
  /\ respQueue st' = map (fun r => (fst r - 10, snd r)) kept
  /\ timerExpired st' = (match kept with [] => true | _ => false end)
  /\ delayTimer_waiting st' = negb (timerExpired st').
Proof.
  cbv zeta. unfold timer_handler.
  pose proof (remove_if_deliver_signals (respQueue st)) as Hsig.
  pose proof (remove_if_deliver_kept (respQueue st)) as Hkept.
  destruct (remove_if_deliver (respQueue st)) as [t kept]. simpl in *.
  rewrite <- Hkept, <- Hsig.
  destruct kept as [|r kept]; simpl.
  - rewrite signals_app. simpl. rewrite app_nil_r. auto.
  - auto.
Qed.

(** The tick of the specification and the handler disagree on a queue
    of one entry with a remaining delay of 10: the specification's tick
    delivers it at once and empties the queue, the handler delivers
    nothing and keeps it with a remaining delay of 0. *)
Lemma tick_order_differs :
  let s := mkSignal 0x01 8 0 false [0x05] in
  let st := mkState [(10, s)] false true in
  spec_tick (respQueue st) = ([s], [])
  /\ signals (snd (timer_handler success st)) = []
  /\ respQueue (fst (timer_handler success st)) = [(0, s)].
Proof. repeat split. Qed.

Lemma timer_handler_signals ec st s :
  In s (signals (snd (timer_handler ec st))) ->
  exists d, In (d, s) (respQueue st) /\ d <= 0.
Proof.
  destruct ec; [|intros []|intros []].
  rewrite timer_handler_success_signals. intros Hin.
  apply in_map_iff in Hin as ([d s'] & <- & Hin).
  apply filter_In in Hin as [Hin Hle].
  exists d. split; [exact Hin|]. simpl in Hle. lia.
Qed.

Lemma timer_handler_queue ec st e :
  In e (respQueue (fst (timer_handler ec st))) ->
  exists e0, In e0 (respQueue st) /\ snd e = snd e0.
Proof.
  destruct ec; [|intros H; now exists e|intros H; now exists e].
  rewrite timer_handler_success_queue. intros Hin.
  apply in_map_iff in Hin as (e0 & <- & Hin).
  apply filter_In in Hin as [Hin _].
  now exists e0.
Qed.

(** ** What a call does to the globals and which signals it sends *)

Lemma processMctpCommand_state L file eid payload st :
  let res := processMctpCommand L file eid payload st in
  res_state res = st
  \/ exists d mtype resp,
       0 < d /\ res_state res = enqueue d (mkSignal mtype eid 0 false resp) st.
Proof.
  destruct payload as [|mtype rest]; [now left|].
  pose proof (processMctpCommand_selected L file eid mtype rest st) as H.
  cbv zeta in *.
  destruct (selected_rule L file (mtype :: rest)) as [r|].
  - destruct H as (_ & Hst & _). rewrite Hst.
    destruct (respond_cases (processingDelayMilliSec r)
                (mkSignal mtype eid 0 false (rule_response r)) st)
      as [[_ ->]|[[_ ->]|[[Hpos ->]|[_ ->]]]]; simpl; eauto.
    right. eauto.
  - destruct H as (_ & Hst & _). now left.
Qed.

Lemma processMctpCommand_signals L file eid payload st s :
  In s (signals (res_trace (processMctpCommand L file eid payload st))) ->
  srcEid s = eid /\ msgTag s = 0 /\ tagOwner s = false.
Proof.
  destruct payload as [|mtype rest]; [intros []|].
  pose proof (processMctpCommand_selected L file eid mtype rest st) as H.
  cbv zeta in *.
  destruct (selected_rule L file (mtype :: rest)) as [r|].
  - destruct H as (_ & _ & pre & -> & Hsig).
    rewrite signals_app, Hsig. simpl.
    destruct (respond_cases (processingDelayMilliSec r)
                (mkSignal mtype eid 0 false (rule_response r)) st)
      as [[_ ->]|[[_ ->]|[[Hpos ->]|[_ ->]]]]; simpl;
      try (intros Hf; contradiction Hf).
    intros [<-|[]]. auto.
  - destruct H as (_ & _ & ->). intros [].
Qed.

Lemma addressed_more eids more s : addressed eids s -> addressed (eids ++ more) s.
Proof.
  intros (Hin & Htag & Hown). split; [|auto].
  apply in_or_app. now left.
Qed.

Lemma run_addressed L evs : forall w seen,
  (forall e, In e (respQueue (globals w)) -> addressed seen (snd e)) ->
  (forall s, In s (signals (snd (run L evs w)))
             -> addressed (seen ++ inbound_eids evs) s)
  /\ (forall e, In e (respQueue (globals (fst (run L evs w))))
                -> addressed (seen ++ inbound_eids evs) (snd e)).
Proof.
  induction evs as [|ev evs IH]; intros w seen Hq.
  - simpl. rewrite app_nil_r. split; [intros s []|exact Hq].
  - cbn [run].
    destruct (step L ev w) as [w1 t1] eqn:Hstep.
    assert (Hstep' :
              (forall s, In s (signals t1)
                         -> addressed (seen ++ inbound_eids [ev]) s)
              /\ (forall e, In e (respQueue (globals w1))
                            -> addressed (seen ++ inbound_eids [ev]) (snd e))).
    { destruct ev as [dstEid payload|ec|file']; simpl in Hstep.
      - injection Hstep as <- <-. simpl. split.
        + intros s Hs.
          apply processMctpCommand_signals in Hs as (He & Ht & Ho).
          split; [|auto]. apply in_or_app. right. now left.
        + intros e He.
          destruct (processMctpCommand_state L (config_file w) dstEid
                      payload (globals w))
            as [Hst|(d & mtype & resp & _ & Hst)];
            cbv zeta in Hst; rewrite Hst in He.
          * apply addressed_more. now apply Hq.
          * rewrite enqueue_queue in He.
            apply in_app_or in He as [He|[<-|[]]].
            -- apply addressed_more. now apply Hq.
            -- split; [|auto]. apply in_or_app. right. now left.
      - rewrite app_nil_r.
        destruct (delayTimer_waiting (globals w)).
        + destruct (timer_handler ec (globals w)) as [st' t] eqn:Hth.
          injection Hstep as <- <-. simpl. split.
          * intros s Hs.
            pose proof (timer_handler_signals ec (globals w) s) as Hsig.
            rewrite Hth in Hsig.
            destruct (Hsig Hs) as (d & Hin & _).
            exact (Hq _ Hin).
          * intros e He.
            pose proof (timer_handler_queue ec (globals w) e) as Hqu.
            rewrite Hth in Hqu.
            destruct (Hqu He) as (e0 & Hin & ->).
            exact (Hq _ Hin).
        + injection Hstep as <- <-. split; [intros s []|exact Hq].
      - injection Hstep as <- <-. rewrite app_nil_r. simpl.
        split; [intros s []|exact Hq]. }
    destruct Hstep' as [Hs1 Hq1].
    specialize (IH w1 (seen ++ inbound_eids [ev]) Hq1).
    assert (Heids : (seen ++ inbound_eids [ev]) ++ inbound_eids evs
                    = seen ++ inbound_eids (ev :: evs)).
    { rewrite <- app_assoc. f_equal. now destruct ev. }
    rewrite Heids in IH.
    destruct (run L evs w1) as [w2 t2].
    cbn [fst snd] in *. destruct IH as [Hs2 Hq2].
    split; [|exact Hq2].
    intros s Hs. rewrite signals_app in Hs.
    apply in_app_or in Hs as [Hs|Hs]; [|now apply Hs2].
    rewrite <- Heids. apply addressed_more. now apply Hs1.
Qed.

(** C10. Every response carries the destination endpoint id of the call
    it answers as its source, message tag 0 and a cleared tag-owner
    flag: this holds for the signals a call sends at once and for the
    entry it puts on the queue; the timer handler sends a queued entry's
    stored tuple unchanged and leaves the tuples of the entries it keeps
    untouched; hence every signal of a run of the process is addressed
    this way on behalf of one of the run's inbound calls. *)
Theorem response_addressing :
  (forall L file dstEid payload st s,
      In s (signals (res_trace (processMctpCommand L file dstEid payload st)))
      -> srcEid s = dstEid /\ msgTag s = 0 /\ tagOwner s = false)
  /\ (forall L file dstEid payload st,
        let st' := res_state (processMctpCommand L file dstEid payload st) in
        exists new,
          respQueue st' = respQueue st ++ new
          /\ forall e, In e new
                       -> srcEid (snd e) = dstEid /\ msgTag (snd e) = 0
                          /\ tagOwner (snd e) = false)
  /\ (forall ec st s,
        In s (signals (snd (timer_handler ec st)))
        -> exists d, In (d, s) (respQueue st))
  /\ (forall ec st e,
        In e (respQueue (fst (timer_handler ec st)))
        -> exists e0, In e0 (respQueue st) /\ snd e = snd e0)
  /\ (forall L file evs s,
        In s (signals (snd (run L evs (start file))))
        -> addressed (inbound_eids evs) s).
Proof.
  split; [exact processMctpCommand_signals|].
  split.
  { intros L file dstEid payload st. cbv zeta.
    destruct (processMctpCommand_state L file dstEid payload st)
      as [Hst|(d & mtype & resp & _ & Hst)]; cbv zeta in Hst; rewrite Hst.
    - exists []. rewrite app_nil_r. split; [reflexivity|intros e []].
    - exists [(d, mkSignal mtype dstEid 0 false resp)].
      split; [apply enqueue_queue|].
      intros e [<-|[]]. auto. }
  split.
  { intros ec st s Hs.
    destruct (timer_handler_signals ec st s Hs) as (d & Hin & _). eauto. }
  split; [exact timer_handler_queue|].
  intros L file evs s Hs.
  destruct (run_addressed L evs (start file) []) as [H _].
  - intros e [].
  - exact (H s Hs).
Qed.

(** ** The timer and the queue *)

Lemma bool_neq_true (b : bool) : b = false <-> b <> true.
Proof. destruct b; split; congruence. Qed.

Lemma enqueue_flag d s st :
  flag_tracks_queue st -> flag_tracks_queue (enqueue d s st).
Proof.
  intros [Hflag Hwait]. unfold enqueue, flag_tracks_queue. simpl.
  destruct (timerExpired st) eqn:Hexp; simpl.
  - split; [|reflexivity].
    split; [discriminate|]. intros H. now apply app_eq_nil in H as [_ H].
  - split; [|exact Hwait].
    split; [discriminate|]. intros H. now apply app_eq_nil in H as [_ H].
Qed.

Lemma enqueue_alive d s st : timer_alive st -> timer_alive (enqueue d s st).
Proof.
  unfold enqueue, timer_alive. simpl.
  destruct (timerExpired st) eqn:Hexp; simpl; auto.
Qed.

Lemma timer_handler_flag ec st :
  flag_tracks_queue st -> flag_tracks_queue (fst (timer_handler ec st)).
Proof.
  intros [Hflag Hwait]. unfold flag_tracks_queue.
  destruct ec; simpl.
  - destruct (remove_if_deliver (respQueue st)) as [t [|r kept]]; simpl.
    + split; [tauto|discriminate].
    + split; [|reflexivity]. split; discriminate.
  - split; [exact Hflag|discriminate].
  - split; [exact Hflag|discriminate].
Qed.

Lemma timer_handler_alive st : timer_alive (fst (timer_handler success st)).
Proof.
  unfold timer_alive. simpl.
  destruct (remove_if_deliver (respQueue st)) as [t [|r kept]]; simpl;
    [discriminate|reflexivity].
Qed.

Lemma step_flag L ev w :
  flag_tracks_queue (globals w) -> flag_tracks_queue (globals (fst (step L ev w))).
Proof.
  intros Hinv. destruct ev as [dstEid payload|ec|file']; simpl.
  - destruct (processMctpCommand_state L (config_file w) dstEid payload
                (globals w)) as [Hst|(d & mtype & resp & _ & Hst)];
      cbv zeta in Hst; rewrite Hst; [exact Hinv|now apply enqueue_flag].
  - destruct (delayTimer_waiting (globals w)); [|exact Hinv].
    pose proof (timer_handler_flag ec (globals w) Hinv) as H.
    now destruct (timer_handler ec (globals w)).
  - exact Hinv.
Qed.

Lemma step_alive L ev w :
  error_free [ev] = true ->
  timer_alive (globals w) -> timer_alive (globals (fst (step L ev w))).
Proof.
  intros Hok Hinv. destruct ev as [dstEid payload|ec|file']; simpl.
  - destruct (processMctpCommand_state L (config_file w) dstEid payload
                (globals w)) as [Hst|(d & mtype & resp & _ & Hst)];
      cbv zeta in Hst; rewrite Hst; [exact Hinv|now apply enqueue_alive].
  - destruct ec; try discriminate Hok.
    destruct (delayTimer_waiting (globals w)); [|exact Hinv].
    pose proof (timer_handler_alive (globals w)) as H.
    now destruct (timer_handler success (globals w)).
  - exact Hinv.
Qed.

Lemma run_flag L evs : forall w,
  flag_tracks_queue (globals w) ->
  flag_tracks_queue (globals (fst (run L evs w))).
Proof.
  induction evs as [|ev evs IH]; intros w Hinv; [exact Hinv|].
  cbn [run].
  pose proof (step_flag L ev w Hinv) as H1.
  destruct (step L ev w) as [w1 t1]. cbn [fst] in H1.
  specialize (IH w1 H1).
  now destruct (run L evs w1).
Qed.

Lemma error_free_cons ev evs :
  error_free (ev :: evs) = true -> error_free [ev] = true /\ error_free evs = true.
Proof. destruct ev as [? ?|[]|?]; simpl; auto; discriminate. Qed.

Lemma run_alive L evs : forall w,
  error_free evs = true ->
  timer_alive (globals w) -> timer_alive (globals (fst (run L evs w))).
Proof.
  induction evs as [|ev evs IH]; intros w Hok Hinv; [exact Hinv|].
  apply error_free_cons in Hok as [Hok1 Hok2].
  cbn [run].
  pose proof (step_alive L ev w Hok1 Hinv) as H1.
  destruct (step L ev w) as [w1 t1]. cbn [fst] in H1.
  specialize (IH w1 Hok2 H1).
  now destruct (run L evs w1).
Qed.

(** C3, as the code has it. In every state the process reaches, the
    flag [timerExpired] is cleared exactly when the queue is non-empty,
    and the timer runs only while the queue is non-empty.  As long as no
    timer wait has ended with an error or a cancellation, the timer runs
    exactly when the queue is non-empty. *)
Theorem timer_flag_tracks_queue L file evs :
  let st := globals (fst (run L evs (start file))) in
  (timerExpired st = false <-> respQueue st <> [])
  /\ (delayTimer_waiting st = true -> respQueue st <> [])
  /\ (error_free evs = true ->
      (delayTimer_waiting st = true <-> respQueue st <> [])).
Proof.
  intros st.
  assert (Hflag : flag_tracks_queue st).
  { apply run_flag. split; simpl; [tauto|discriminate]. }
  destruct Hflag as [Hflag Hwait].
  assert (H1 : timerExpired st = false <-> respQueue st <> []).
  { rewrite bool_neq_true. now rewrite Hflag. }
  split; [exact H1|]. split.
  - intros Hw. apply H1. now apply Hwait.
  - intros Hok.
    assert (Halive : timer_alive st).
    { apply run_alive; [exact Hok|]. intros H. discriminate H. }
    split.
    + intros Hw. apply H1. now apply Hwait.
    + intros Hq. apply Halive. now apply H1.
Qed.

Lemma timer_flag_tracks_queue_witness :
  let st :=
    globals (fst (run spec_layout
                      [Inbound 8 [0x01; 0x04]; TimerFire success]
                      (start (Some sample_config)))) in
  delayTimer_waiting st = true <-> respQueue st <> [].
Proof.
  apply (proj2 (proj2 (timer_flag_tracks_queue spec_layout
                         (Some sample_config)
                         [Inbound 8 [0x01; 0x04]; TimerFire success]))).
  reflexivity.
Defined.

(** A non-empty queue without a running timer: after a delayed response
    has been queued, a timer wait that ends with an error, or with a
    cancellation, leaves the entry on the queue and no timer running. *)
Lemma timer_stopped_with_pending :
  let s := mkSignal 0x01 8 0 false [0x05] in
  let failed :=
    globals (fst (run spec_layout
                      [Inbound 8 [0x01; 0x04]; TimerFire other_error]
                      (start (Some sample_config)))) in
  let cancelled :=
    globals (fst (run spec_layout
                      [Inbound 8 [0x01; 0x04]; TimerFire operation_aborted]
                      (start (Some sample_config)))) in
  (respQueue failed = [(50, s)] /\ delayTimer_waiting failed = false)
  /\ (respQueue cancelled = [(50, s)] /\ delayTimer_waiting cancelled = false).
Proof. vm_compute. repeat split. Qed.

(** ** Reading the configuration *)

Lemma remove_if_deliver_reads q : config_reads (fst (remove_if_deliver q)) = O.
Proof.
  induction q as [|[d s] q IH]; simpl; [reflexivity|].
  destruct (remove_if_deliver q) as [t kept]. simpl in *.
  destruct (0 <? d); simpl; exact IH.
Qed.

Lemma timer_handler_reads ec st : config_reads (snd (timer_handler ec st)) = O.
Proof.
  destruct ec; simpl; try reflexivity.
  pose proof (remove_if_deliver_reads (respQueue st)) as H.
  destruct (remove_if_deliver (respQueue st)) as [t [|r kept]]; simpl in *.
  - rewrite config_reads_app, H. reflexivity.
  - exact H.
Qed.

Lemma respond_reads d s st : config_reads (snd (respond d s st)) = O.
Proof.
  destruct (respond_cases d s st)
    as [[_ ->]|[[_ ->]|[[_ ->]|[_ ->]]]]; reflexivity.
Qed.

Lemma match_loop_reads reqHeader payload mtype eid tag owner items st :
  config_reads (snd (match_loop reqHeader payload mtype eid tag owner items st))
  = O.
Proof.
  induction items as [|iter rest IH]; simpl; [reflexivity|].
  destruct (decode_rule iter) as [r|].
  - destruct (rule_matches reqHeader r payload).
    + pose proof (respond_reads (processingDelayMilliSec r)
                    (mkSignal mtype eid tag owner (rule_response r)) st) as H.
      split_loop. simpl in *. exact H.
    + split_loop. simpl in *. exact IH.
  - split_loop. simpl in *. exact IH.
Qed.

Lemma processMctpCommand_reads L file eid mtype rest st :
  config_reads (res_trace (processMctpCommand L file eid (mtype :: rest) st))
  = 1%nat.
Proof.
  pose proof (processMctpCommand_lookup L file eid mtype rest st) as H.
  cbv zeta in H.
  destruct (lookup L file (mtype :: rest)) as [items|] eqn:Hlk.
  - destruct H as (_ & _ & ->). simpl.
    now rewrite match_loop_reads.
  - clear H. revert Hlk. unfold lookup, processMctpCommand. cbn [nth_error].
    destruct file as [reqResp|]; [|reflexivity].
    destruct (json_index reqResp (getMessageType mtype)) as [reqRespData|];
      [|reflexivity].
    destruct (String.eqb (getMessageType mtype) "VDPCI"); [|discriminate].
    destruct (List.length (mtype :: rest) <? hdr_size L)%nat; [reflexivity|].
    destruct (vendorMap !! _) as [vendorString|]; [|reflexivity].
    destruct (String.eqb vendorString "Intel" && _); [reflexivity|].
    destruct (json_index reqRespData vendorString) as [v|]; [|reflexivity].
    destruct (json_index v _) as [rules|]; [discriminate|reflexivity].
Qed.

(** C2, as the code has it. Nothing is read when the process starts;
    every inbound call that carries at least one byte opens and parses
    the configuration file once, so a run reads it as many times as it
    has such calls.  A call is answered from what the file holds at the
    time of the call: after a change of the file the next call is served
    from the new content, and what the file held at start-up has no
    influence on a run once the file has been replaced. *)
Theorem config_read_on_every_call :
  (forall L evs w, config_reads (snd (run L evs w)) = inbound_calls evs)
  /\ (forall L file w dstEid payload,
        snd (run L [ConfigChange file; Inbound dstEid payload] w)
        = res_trace (processMctpCommand L file dstEid payload (globals w)))
  /\ (forall L file0 file0' file evs,
        run L (ConfigChange file :: evs) (start file0)
        = run L (ConfigChange file :: evs) (start file0')).
Proof.
  split; [|split; [intros; simpl; apply app_nil_r|reflexivity]].
  intros L evs. induction evs as [|ev evs IH]; intros w; [reflexivity|].
  cbn [run].
  destruct (step L ev w) as [w1 t1] eqn:Hstep.
  specialize (IH w1). destruct (run L evs w1) as [w2 t2].
  cbn [snd] in *. rewrite config_reads_app, IH.
  destruct ev as [dstEid [|b rest]|ec|file']; simpl in Hstep.
  - injection Hstep as <- <-. reflexivity.
  - injection Hstep as <- <-. simpl inbound_calls.
    now rewrite processMctpCommand_reads.
  - destruct (delayTimer_waiting (globals w)).
    + pose proof (timer_handler_reads ec (globals w)) as H.
      destruct (timer_handler ec (globals w)) as [st' t].
      injection Hstep as <- <-. simpl in *. now rewrite H.
    + injection Hstep as <- <-. reflexivity.
  - injection Hstep as <- <-. reflexivity.
Qed.

(** The configuration is read again after start-up: two runs start
    with the same file and in the second the file is replaced later;
    the same payload is answered with different responses, and two
    calls read the file twice. *)
Lemma config_reread_changes_result :
  let payload := [0x01; 0x02] in
  let unchanged :=
    run spec_layout [Inbound 8 payload] (start (Some sample_config)) in
  let changed :=
    run spec_layout [ConfigChange (Some swapped_config); Inbound 8 payload]
        (start (Some sample_config)) in
  let twice :=
    run spec_layout [Inbound 8 payload; Inbound 8 payload]
        (start (Some sample_config)) in
  signals (snd unchanged) = [mkSignal 0x01 8 0 false [0x09]]
  /\ signals (snd changed) = [mkSignal 0x01 8 0 false [0xAA]]
  /\ config_reads (snd twice) = 2%nat.
Proof. vm_compute. repeat split. Qed.

(** ** Delayed responses *)






Lemma selected_rule_nonempty L file payload r :
  selected_rule L file payload = Some r ->
  exists mtype rest, payload = mtype :: rest.
Proof.
  destruct payload as [|mtype rest]; [|eauto].
  unfold selected_rule, lookup. simpl. discriminate.
Qed.

(** The rule with delay 50 of the sample configuration: five timer
    completions send nothing, the sixth sends the response and stops
    the timer. *)
Example delayed_50_is_sent_on_the_sixth_tick :
  let w :=
    fst (run spec_layout [Inbound 8 [0x01; 0x04]] (start (Some sample_config))) in
  let five := run spec_layout (repeat (TimerFire success) 5) w in
  let sixth := run spec_layout [TimerFire success] (fst five) in
  signals (snd five) = []
  /\ signals (snd sixth) = [mkSignal 0x01 8 0 false [0x05]]
  /\ globals (fst sixth) = initial_state.
Proof. vm_compute. repeat split. Qed.

(** The other delay values of the sample configuration. *)
Example sample_delays :
  let call payload :=
    processMctpCommand spec_layout (Some sample_config) 8 payload
                       initial_state in
  signals (res_trace (call [0x01; 0x03])) = [mkSignal 0x01 8 0 false [0x07]]
  /\ (signals (res_trace (call [0x01; 0x06])) = []
      /\ res_state (call [0x01; 0x06]) = initial_state)
  /\ (signals (res_trace (call [0x01; 0x08])) = []
      /\ res_state (call [0x01; 0x08]) = initial_state
      /\ In (Log ERR "mctp-emulator: Invalid processing delay")
            (res_trace (call [0x01; 0x08]))).
Proof.
  vm_compute. repeat split.
  repeat match goal with
         | |- _ \/ _ => first [left; reflexivity | right]
         end.
Qed.

(** * Further properties of the code *)

(** ** The schedule of the delivery queue *)

Lemma due_tick_first d : (due_tick d =? 1)%nat = (d <=? 0).
Proof.
  unfold due_tick.
  destruct (Z.leb_spec d 0) as [Hle|Hgt].
  - assert (H : (d + 9) / 10 <= 0).
    { apply Z.lt_succ_r, Z.div_lt_upper_bound; lia. }
    replace (Z.to_nat ((d + 9) / 10)) with O by lia. reflexivity.
  - assert (H : 1 <= (d + 9) / 10).
    { apply Z.div_le_lower_bound; lia. }
    apply Nat.eqb_neq. lia.
Qed.

Lemma due_tick_decrement d i :
  0 < d -> (due_tick (d - retryTimeMilliSec) =? i)%nat = (due_tick d =? S i)%nat.
Proof.
  intros Hd. unfold due_tick, retryTimeMilliSec.
  assert (H1 : 1 <= (d + 9) / 10) by (apply Z.div_le_lower_bound; lia).
  assert (H2 : (d - 10 + 9) / 10 = (d + 9) / 10 - 1).
  { replace (d - 10 + 9) with (d + 9 + (-1) * 10) by lia.
    rewrite Z.div_add by lia. lia. }
  rewrite H2.
  replace (S (Z.to_nat ((d + 9) / 10))) with (S (S (Z.to_nat ((d + 9) / 10 - 1))))
    by lia.
  reflexivity.
Qed.

Lemma due_on_first q :
  due_on 1 q = map snd (List.filter (fun r => fst r <=? 0) q).
Proof.
  unfold due_on. f_equal. apply filter_ext. intros e. apply due_tick_first.
Qed.

Lemma due_on_decrement q i :
  due_on (S i) (map decrement (List.filter (fun r => 0 <? fst r) q))
  = due_on (S (S i)) q.
Proof.
  unfold due_on. induction q as [|[d s] q IH]; [reflexivity|].
  cbn [List.filter fst].
  destruct (Z.ltb_spec 0 d) as [Hpos|Hle].
  - cbn [map List.filter decrement fst snd].
    rewrite (due_tick_decrement d (S i) Hpos).
    destruct (due_tick d =? S (S i))%nat; cbn [map]; now rewrite IH.
  - rewrite IH. cbn [List.filter fst].
    assert (H : (due_tick d =? S (S i))%nat = false).
    { apply Nat.eqb_neq. intros Heq.
      assert (H1 : (due_tick d =? 1)%nat = true)
        by (rewrite due_tick_first; now apply Z.leb_le).
      apply Nat.eqb_eq in H1. lia. }
    now rewrite H.
Qed.

Lemma idle_ticks L k w :
  delayTimer_waiting (globals w) = false -> run L (ticks k) w = (w, []).
Proof.
  intros Hidle. induction k as [|k IH]; [reflexivity|].
  unfold ticks in *. cbn [repeat run step]. rewrite Hidle, IH. reflexivity.
Qed.

Lemma flat_map_due_nil (l : list nat) : flat_map (fun i => due_on i []) l = [].
Proof. induction l as [|i l IH]; [reflexivity|exact IH]. Qed.

Lemma flat_map_due_shift q k :
  flat_map (fun i => due_on i q) (seq 2 k)
  = flat_map
      (fun i => due_on i (map decrement (List.filter (fun r => 0 <? fst r) q)))
      (seq 1 k).
Proof.
  rewrite <- (seq_shift k 1), !flat_map_concat_map, map_map.
  f_equal. apply map_ext_in. intros i Hi. apply in_seq in Hi.
  destruct i as [|i]; [lia|]. symmetry. apply due_on_decrement.
Qed.

Lemma ticks_signals L file k : forall st,
  delayTimer_waiting st = true ->
  signals (snd (run L (ticks k) (mkWorld file st)))
  = flat_map (fun i => due_on i (respQueue st)) (seq 1 k).
Proof.
  induction k as [|k IH]; intros st Hrun; [reflexivity|].
  unfold ticks in *. cbn [repeat run step globals config_file seq flat_map].
  rewrite Hrun.
  pose proof (timer_handler_success_signals st) as Hsig.
  pose proof (timer_handler_success_queue st) as Hq.
  destruct (timer_handler success st) as [st' t] eqn:Hth. cbn [fst snd] in *.
  rewrite flat_map_due_shift, <- Hq, due_on_first, <- Hsig.
  destruct (delayTimer_waiting st') eqn:Hrun'.
  - specialize (IH st' Hrun').
    destruct (run L (repeat (TimerFire success) k) (mkWorld file st'))
      as [w2 t2].
    cbn [snd] in *. now rewrite signals_app, IH.
  - assert (Hempty : respQueue st' = []).
    { revert Hth Hrun'. unfold timer_handler.
      destruct (remove_if_deliver (respQueue st)) as [t0 [|r kept]];
        intros [= <- <-]; [reflexivity|discriminate]. }
    pose proof (idle_ticks L k (mkWorld file st') Hrun') as Hidle.
    unfold ticks in Hidle. rewrite Hidle. cbn [snd].
    rewrite signals_app, Hempty. cbn [signals].
    now rewrite flat_map_due_nil.
Qed.

(** X1. The schedule of a running queue: during [k] timer completions
    without error, every entry is sent on the tick its remaining delay
    makes it due (the first tick for a delay at or below zero, tick
    [1 + ceil (d / 10)] for a delay [d > 0]) and at no other time, and
    the entries due on the same tick are sent in queue order. *)
Theorem delivery_schedule L file k st :
  delayTimer_waiting st = true ->
  signals (snd (run L (ticks k) (mkWorld file st)))
  = flat_map (fun i => due_on i (respQueue st)) (seq 1 k).
Proof. apply ticks_signals. Qed.

Lemma delivery_schedule_witness :
  let s1 := mkSignal 0x01 8 0 false [0x05] in
  let s2 := mkSignal 0x01 9 0 false [0x06] in
  let s3 := mkSignal 0x01 7 0 false [0x07] in
  signals
    (snd (run spec_layout (ticks 3) (mkWorld None
            (mkState [(15, s1); (0, s2); (20, s3)] false true))))
  = [s2; s1; s3].
Proof.
  apply (delivery_schedule spec_layout None 3
           (mkState [(15, mkSignal 0x01 8 0 false [0x05]);
                     (0, mkSignal 0x01 9 0 false [0x06]);
                     (20, mkSignal 0x01 7 0 false [0x07])] false true)).
  reflexivity.
Defined.

(** ** Draining the queue *)

Lemma filter_split_perm {A} (p q : A -> bool) (l : list A) :
  (forall x, q x = negb (p x)) ->
  Permutation (List.filter p l ++ List.filter q l) l.
Proof.
  intros Hpq. induction l as [|x l IH]; [constructor|].
  cbn [List.filter]. rewrite Hpq.
  destruct (p x); cbn [negb app].
  - now constructor.
  - apply Permutation_sym, Permutation_cons_app, Permutation_sym, IH.
Qed.

Lemma map_snd_decrement (q : list PendingResponse) :
  map snd (map decrement q) = map snd q.
Proof. rewrite map_map. reflexivity. Qed.

Lemma timer_handler_success_state st :
  let kept := List.filter (fun r => 0 <? fst r) (respQueue st) in
  (kept = [] /\ fst (timer_handler success st) = initial_state)
  \/ (kept <> []
      /\ fst (timer_handler success st)
         = mkState (map decrement kept) false true).
Proof.
  cbv zeta. unfold timer_handler.
  pose proof (remove_if_deliver_kept (respQueue st)) as Hkept.
  destruct (remove_if_deliver (respQueue st)) as [t [|r kept]];
    cbn [snd fst] in *; rewrite <- Hkept.
  - now left.
  - right. split; [discriminate|reflexivity].
Qed.

Lemma run_tick L file k st :
  delayTimer_waiting st = true ->
  run L (ticks (S k)) (mkWorld file st)
  = (let (st', t) := timer_handler success st in
     let (w2, t2) := run L (ticks k) (mkWorld file st') in
     (w2, t ++ t2)).
Proof.
  intros Hrun. unfold ticks. cbn [repeat run step globals config_file].
  rewrite Hrun. now destruct (timer_handler success st).
Qed.

(** X2. A running queue drains: when no remaining delay exceeds [10 * k],
    [k + 1] timer completions without error send every entry of the
    queue exactly once and leave the process idle, with an empty queue,
    the flag [timerExpired] set and no timer running. *)
Theorem queue_drains L file k : forall st,
  delayTimer_waiting st = true ->
  (forall e, In e (respQueue st) -> fst e <= 10 * Z.of_nat k) ->
  let r := run L (ticks (S k)) (mkWorld file st) in
  globals (fst r) = initial_state
  /\ Permutation (signals (snd r)) (map snd (respQueue st)).
Proof.
  induction k as [|k IH]; intros st Hrun Hmax; cbv zeta;
    rewrite run_tick by exact Hrun;
    pose proof (timer_handler_success_signals st) as Hsig;
    pose proof (timer_handler_success_queue st) as Hq;
    pose proof (timer_handler_success_state st) as Hst;
    pose proof (filter_split_perm (A := Z * MessageReceivedSignal)
                  (fun r => fst r <=? 0) (fun r => 0 <? fst r)
                  (respQueue st)
                  (fun r => eq_sym (eq_trans (f_equal negb (Z.leb_antisym _ _))
                                             (negb_involutive _)))) as Hperm;
    apply (Permutation_map snd) in Hperm; rewrite map_app in Hperm;
    destruct (timer_handler success st) as [st' t]; cbn [fst snd] in *;
    cbv zeta in Hst.
  - destruct Hst as [[Hnone ->]|[Hsome _]].
    + unfold ticks. cbn [repeat run fst snd globals]. split; [reflexivity|].
      rewrite app_nil_r, Hsig. rewrite Hnone, app_nil_r in Hperm. exact Hperm.
    + exfalso. apply Hsome.
      destruct (List.filter (fun r : Z * MessageReceivedSignal => 0 <? fst r)
                            (respQueue st)) as [|e l] eqn:Hf; [reflexivity|].
      assert (Hin : In e (List.filter (fun r => 0 <? fst r) (respQueue st)))
        by (rewrite Hf; now left).
      apply filter_In in Hin as [Hin Hpos].
      apply Z.ltb_lt in Hpos. specialize (Hmax e Hin). lia.
  - destruct Hst as [[Hnone ->]|[Hsome ->]].
    + rewrite (idle_ticks L (S k) (mkWorld file initial_state) eq_refl).
      cbn [fst snd globals].
      split; [reflexivity|].
      rewrite app_nil_r, Hsig. rewrite Hnone, app_nil_r in Hperm. exact Hperm.
    + set (kept := List.filter (fun r => 0 <? fst r) (respQueue st)) in *.
      destruct (IH (mkState (map decrement kept) false true) eq_refl)
        as [Hidle Hrest].
      { intros e He. cbn [respQueue] in He.
        apply in_map_iff in He as (e0 & <- & He0).
        apply filter_In in He0 as [He0 _]. specialize (Hmax e0 He0).
        unfold decrement, retryTimeMilliSec. cbn [fst]. lia. }
      destruct (run L (ticks (S k)) _) as [w2 t2].
      cbn [fst snd respQueue] in *. split; [exact Hidle|].
      rewrite signals_app, Hsig.
      rewrite map_snd_decrement in Hrest.
      eapply Permutation_trans; [|exact Hperm].
      now apply Permutation_app_head.
Qed.

Lemma queue_drains_witness :
  let s1 := mkSignal 0x01 8 0 false [0x05] in
  let s2 := mkSignal 0x01 9 0 false [0x06] in
  let r :=
    run spec_layout (ticks 3)
        (mkWorld None (mkState [(20, s1); (5, s2)] false true)) in
  globals (fst r) = initial_state
  /\ Permutation (signals (snd r)) [s1; s2].
Proof.
  apply (queue_drains spec_layout None 2
           (mkState [(20, mkSignal 0x01 8 0 false [0x05]);
                     (5, mkSignal 0x01 9 0 false [0x06])] false true)).
  - reflexivity.
  - intros e [<-|[<-|[]]]; simpl; lia.
Defined.

(** ** Conservation of responses *)

Lemma processMctpCommand_count L file eid payload st :
  let res := processMctpCommand L file eid payload st in
  (List.length (signals (res_trace res))
   + List.length (respQueue (res_state res)))%nat
  = (List.length (respQueue st)
     + (if answered L file payload then 1 else 0))%nat.
Proof.
  unfold answered. destruct payload as [|mtype rest].
  { simpl. lia. }
  pose proof (processMctpCommand_selected L file eid mtype rest st) as H.
  cbv zeta in *.
  destruct (selected_rule L file (mtype :: rest)) as [r|].
  - destruct H as (_ & -> & pre & -> & Hpre).
    rewrite signals_app, Hpre. cbn [app].
    destruct (respond_cases (processingDelayMilliSec r)
                (mkSignal mtype eid 0 false (rule_response r)) st)
      as [[Hd ->]|[[Hd ->]|[[Hd ->]|[Hd ->]]]]; cbn [fst snd signals].
    + rewrite Hd. simpl. lia.
    + rewrite Hd. simpl. lia.
    + rewrite enqueue_queue, length_app.
      destruct (Z.leb_spec 0 (processingDelayMilliSec r)); simpl; lia.
    + destruct (Z.leb_spec 0 (processingDelayMilliSec r)); simpl; lia.
  - destruct H as (_ & -> & ->). simpl. lia.
Qed.

Lemma timer_handler_count ec st :
  (List.length (signals (snd (timer_handler ec st)))
   + List.length (respQueue (fst (timer_handler ec st))))%nat
  = List.length (respQueue st).
Proof.
  destruct ec; [|reflexivity|reflexivity].
  rewrite timer_handler_success_signals, timer_handler_success_queue.
  rewrite !length_map, <- length_app.
  apply Permutation_length, filter_split_perm.
  intros r. rewrite Z.leb_antisym. now rewrite negb_involutive.
Qed.

(** X3. No response is lost or duplicated: at the end of any run, the
    signals sent during the run together with the entries still on the
    queue are as many as the entries that were on the queue at the
    beginning plus the inbound calls that selected a rule with a
    non-negative delay.  Timer errors and cancellations do not change
    this count. *)
Theorem responses_conserved L evs : forall w,
  (List.length (signals (snd (run L evs w)))
   + List.length (respQueue (globals (fst (run L evs w)))))%nat
  = (List.length (respQueue (globals w))
     + answered_calls L evs (config_file w))%nat.
Proof.
  induction evs as [|ev evs IH]; intros w; [simpl; lia|].
  cbn [run].
  destruct (step L ev w) as [w1 t1] eqn:Hstep.
  specialize (IH w1). destruct (run L evs w1) as [w2 t2].
  cbn [fst snd] in *. rewrite signals_app, length_app.
  destruct ev as [dstEid payload|ec|file']; cbn [step answered_calls] in *.
  - injection Hstep as <- <-. cbn [globals config_file] in IH.
    pose proof (processMctpCommand_count L (config_file w) dstEid payload
                  (globals w)) as Hc.
    cbv zeta in Hc. lia.
  - destruct (delayTimer_waiting (globals w)).
    + pose proof (timer_handler_count ec (globals w)) as Hc.
      destruct (timer_handler ec (globals w)) as [st' t].
      injection Hstep as <- <-. cbn [globals config_file fst snd] in *. lia.
    + injection Hstep as <- <-. simpl. lia.
  - injection Hstep as <- <-. cbn [globals config_file] in IH. simpl. lia.
Qed.

(** ** The fields of a decoded rule *)

Lemma json_to_uint8_byte j b : json_to_uint8 j = Some b -> is_byte b.
Proof.
  unfold is_byte. destruct j as [| |[]|n|s|l|m]; intros [= <-]; try lia.
  unfold to_uint8. apply Z.mod_pos_bound. lia.
Qed.

Lemma assign_bytes_bytes items : forall bs,
  assign_bytes items = Some bs -> Forall is_byte bs.
Proof.
  induction items as [|j items IH]; intros bs; cbn [assign_bytes].
  - intros [= <-]. constructor.
  - destruct (json_to_uint8 j) as [b|] eqn:Hb; [|discriminate].
    destruct (assign_bytes items) as [bs'|]; [|discriminate].
    intros [= <-]. constructor; [now apply (json_to_uint8_byte j)|now apply IH].
Qed.

Lemma json_to_int_range j d : json_to_int j = Some d -> INT_MIN <= d <= INT_MAX.
Proof.
  destruct j as [| |[]|n|s|l|m]; intros [= <-];
    try (unfold INT_MIN, INT_MAX; lia).
  apply to_int32_range.
Qed.

Lemma decode_rule_delay iter r :
  decode_rule iter = Some r ->
  INT_MIN <= processingDelayMilliSec r <= INT_MAX.
Proof.
  unfold decode_rule.
  destruct (json_contains iter "processing-delay").
  - destruct (json_index iter "processing-delay") as [d|]; [|discriminate].
    destruct (json_to_int d) as [delay|] eqn:Hd; [|discriminate].
    apply json_to_int_range in Hd.
    destruct (json_index iter "request") as [rq|]; [|discriminate].
    destruct (assign_bytes (json_items rq)); [|discriminate].
    destruct (json_index iter "response") as [rs|]; [|discriminate].
    destruct (assign_bytes (json_items rs)); [|discriminate].
    intros [= <-]. exact Hd.
  - destruct (json_index iter "request") as [rq|]; [|discriminate].
    destruct (assign_bytes (json_items rq)); [|discriminate].
    destruct (json_index iter "response") as [rs|]; [|discriminate].
    destruct (assign_bytes (json_items rs)); [|discriminate].
    intros [= <-]. unfold INT_MIN, INT_MAX. simpl. lia.
Qed.

Lemma decode_rule_bytes iter r :
  decode_rule iter = Some r ->
  Forall is_byte (req r) /\ Forall is_byte (rule_response r).
Proof.
  unfold decode_rule.
  destruct (if json_contains iter "processing-delay" then _ else _)
    as [delay|]; [|discriminate].
  destruct (json_index iter "request") as [rq|]; [|discriminate].
  destruct (assign_bytes (json_items rq)) as [bq|] eqn:Hq; [|discriminate].
  destruct (json_index iter "response") as [rs|]; [|discriminate].
  destruct (assign_bytes (json_items rs)) as [bs|] eqn:Hs; [|discriminate].
  intros [= <-]. split; [now apply assign_bytes_bytes in Hq|
                          now apply assign_bytes_bytes in Hs].
Qed.

Lemma first_match_decoded reqHeader payload items r :
  first_match reqHeader payload items = Some r ->
  exists iter,
    In iter items /\ decode_rule iter = Some r
    /\ rule_matches reqHeader r payload = true.
Proof.
  induction items as [|iter rest IH]; cbn [first_match]; [discriminate|].
  destruct (decode_rule iter) as [r'|] eqn:Hdec.
  - destruct (rule_matches reqHeader r' payload) eqn:Hm.
    + intros [= <-]. exists iter. split; [now left|auto].
    + intros H. destruct (IH H) as (i & Hin & Hi). exists i.
      split; [now right|exact Hi].
  - intros H. destruct (IH H) as (i & Hin & Hi). exists i.
    split; [now right|exact Hi].
Qed.

Lemma selected_rule_decoded L file payload r :
  selected_rule L file payload = Some r ->
  exists mtype items iter,
    nth_error payload 0 = Some mtype
    /\ lookup L file payload = Some items
    /\ In iter items /\ decode_rule iter = Some r
    /\ header_prefix L mtype payload ++ req r = payload.
Proof.
  unfold selected_rule.
  destruct (lookup L file payload) as [items|]; [|discriminate].
  destruct (nth_error payload 0) as [mtype|]; [|discriminate].
  intros H. apply first_match_decoded in H as (iter & Hin & Hd & Hm).
  apply vec_eqb_eq in Hm. exists mtype, items, iter. auto.
Qed.

(** ** The range of the remaining delays *)

Lemma processMctpCommand_enqueues L file eid payload st :
  let res := processMctpCommand L file eid payload st in
  res_state res = st
  \/ exists d s, 0 < d <= INT_MAX /\ res_state res = enqueue d s st.
Proof.
  destruct payload as [|mtype rest]; [now left|].
  pose proof (processMctpCommand_selected L file eid mtype rest st) as H.
  cbv zeta in *.
  destruct (selected_rule L file (mtype :: rest)) as [r|] eqn:Hsel.
  - destruct H as (_ & -> & _).
    apply selected_rule_decoded in Hsel as (_ & _ & iter & _ & _ & _ & Hd & _).
    apply decode_rule_delay in Hd.
    destruct (respond_cases (processingDelayMilliSec r)
                (mkSignal mtype eid 0 false (rule_response r)) st)
      as [[_ ->]|[[_ ->]|[[Hpos ->]|[_ ->]]]]; cbn [fst]; auto.
    right. eexists _, _. split; [|reflexivity]. lia.
  - destruct H as (_ & -> & _). now left.
Qed.

Lemma delay_ok_intro (e : PendingResponse) :
  - retryTimeMilliSec < fst e <= INT_MAX -> delay_ok e.
Proof. unfold delay_ok, retryTimeMilliSec, INT_MAX, INT_MIN. lia. Qed.

Lemma step_delay_ok L ev w :
  Forall delay_ok (respQueue (globals w)) ->
  Forall delay_ok (respQueue (globals (fst (step L ev w)))).
Proof.
  intros Hinv. destruct ev as [dstEid payload|ec|file']; cbn [step fst globals].
  - destruct (processMctpCommand_enqueues L (config_file w) dstEid payload
                (globals w)) as [Hst|(d & s & Hd & Hst)];
      cbv zeta in Hst; rewrite Hst; [exact Hinv|].
    rewrite enqueue_queue. apply Forall_app. split; [exact Hinv|].
    constructor; [|constructor]. apply delay_ok_intro.
    unfold retryTimeMilliSec. cbn [fst]. lia.
  - destruct (delayTimer_waiting (globals w)); [|exact Hinv].
    destruct ec.
    + pose proof (timer_handler_success_queue (globals w)) as Hq.
      destruct (timer_handler success (globals w)) as [st' t].
      cbn [fst globals] in *. rewrite Hq.
      apply Lists.List.Forall_forall. intros e He.
      apply in_map_iff in He as (e0 & <- & He0).
      apply filter_In in He0 as [He0 Hpos]. apply Z.ltb_lt in Hpos.
      rewrite Lists.List.Forall_forall in Hinv.
      destruct (Hinv e0 He0) as [[_ Hmax] _].
      apply delay_ok_intro. unfold decrement, retryTimeMilliSec in *.
      cbn [fst]. lia.
    + exact Hinv.
    + exact Hinv.
  - exact Hinv.
Qed.

(** X4. The subtraction of the timer handler never overflows: in every
    state the process reaches, every remaining delay on the queue lies
    above -10 and at most at [INT_MAX], so that taking the tick interval
    off it stays within the range of [int]. *)
Theorem queue_delays_in_range L file evs :
  Forall delay_ok (respQueue (globals (fst (run L evs (start file))))).
Proof.
  assert (H : forall w, Forall delay_ok (respQueue (globals w)) ->
                        Forall delay_ok
                          (respQueue (globals (fst (run L evs w))))).
  { induction evs as [|ev evs IH]; intros w Hinv; [exact Hinv|].
    cbn [run]. pose proof (step_delay_ok L ev w Hinv) as H1.
    destruct (step L ev w) as [w1 t1]. cbn [fst] in H1.
    specialize (IH w1 H1). now destruct (run L evs w1). }
  apply H. constructor.
Qed.

(** ** After a timer failure *)

Lemma stuck_step L ev w :
  timerExpired (globals w) = false ->
  delayTimer_waiting (globals w) = false ->
  let w' := fst (step L ev w) in
  timerExpired (globals w') = false
  /\ delayTimer_waiting (globals w') = false
  /\ exists new, respQueue (globals w') = respQueue (globals w) ++ new.
Proof.
  intros Hexp Hwait. cbv zeta.
  destruct ev as [dstEid payload|ec|file']; cbn [step].
  - cbn [fst globals].
    destruct (processMctpCommand_state L (config_file w) dstEid payload
                (globals w)) as [Hst|(d & mtype & resp & _ & Hst)];
      cbv zeta in Hst; rewrite Hst.
    + split; [exact Hexp|]. split; [exact Hwait|].
      exists []. now rewrite app_nil_r.
    + unfold enqueue. cbn [timerExpired]. rewrite Hexp.
      cbn [timerExpired delayTimer_waiting respQueue].
      split; [reflexivity|]. split; [exact Hwait|]. eauto.
  - rewrite Hwait. cbn [fst]. split; [exact Hexp|]. split; [exact Hwait|].
    exists []. now rewrite app_nil_r.
  - cbn [fst globals]. split; [exact Hexp|]. split; [exact Hwait|].
    exists []. now rewrite app_nil_r.
Qed.

(** X5. Once a timer wait has ended with an error or a cancellation
    while the queue was not empty (the flag [timerExpired] is cleared
    and no timer is running), the timer is never started again: every
    later timer completion is without effect, a run behaves as the same
    run without its timer events, the entries on the queue stay there
    for good, and every later delayed response is only added behind
    them. *)
Theorem timer_never_restarts L evs : forall file st,
  timerExpired st = false ->
  delayTimer_waiting st = false ->
  let r := run L evs (mkWorld file st) in
  r = run L (drop_timer evs) (mkWorld file st)
  /\ timerExpired (globals (fst r)) = false
  /\ delayTimer_waiting (globals (fst r)) = false
  /\ exists new, respQueue (globals (fst r)) = respQueue st ++ new.
Proof.
  induction evs as [|ev evs IH]; intros file st Hexp Hwait; cbv zeta.
  - cbn [run drop_timer fst globals]. repeat split; auto.
    exists []. now rewrite app_nil_r.
  - destruct (stuck_step L ev (mkWorld file st) Hexp Hwait)
      as (Hexp1 & Hwait1 & new1 & Hq1).
    assert (Hdrop : run L (drop_timer (ev :: evs)) (mkWorld file st)
                    = (let (w1, t1) := step L ev (mkWorld file st) in
                       let (w2, t2) := run L (drop_timer evs) w1 in
                       (w2, t1 ++ t2))).
    { destruct ev as [dstEid payload|ec|file']; cbn [drop_timer run];
        try reflexivity.
      cbn [step globals]. rewrite Hwait.
      now destruct (run L (drop_timer evs) (mkWorld file st)). }
    rewrite Hdrop. cbn [run].
    destruct (step L ev (mkWorld file st)) as [[file1 st1] t1].
    cbn [fst globals] in *.
    destruct (IH file1 st1 Hexp1 Hwait1) as (Hrun & Hexp2 & Hwait2 & new2 & Hq2).
    rewrite <- Hrun.
    destruct (run L evs (mkWorld file1 st1)) as [w2 t2]. cbn [fst] in *.
    split; [reflexivity|]. split; [exact Hexp2|]. split; [exact Hwait2|].
    exists (new1 ++ new2). now rewrite Hq2, Hq1, app_assoc.
Qed.

Lemma timer_never_restarts_witness :
  let s := mkSignal 0x01 8 0 false [0x05] in
  let st := mkState [(50, s)] false false in
  let evs :=
    [TimerFire success; Inbound 8 [0x01; 0x04]; TimerFire success;
     Inbound 8 [0x01; 0x03]] in
  let r := run spec_layout evs (mkWorld (Some sample_config) st) in
  r = run spec_layout (drop_timer evs) (mkWorld (Some sample_config) st)
  /\ timerExpired (globals (fst r)) = false
  /\ delayTimer_waiting (globals (fst r)) = false
  /\ exists new, respQueue (globals (fst r)) = respQueue st ++ new.
Proof.
  apply (timer_never_restarts spec_layout
           [TimerFire success; Inbound 8 [0x01; 0x04]; TimerFire success;
            Inbound 8 [0x01; 0x03]]
           (Some sample_config)
           (mkState [(50, mkSignal 0x01 8 0 false [0x05])] false false));
    reflexivity.
Defined.

(** ** Configurations that cannot be used *)

Lemma json_index_not_indexable j key : indexable j = false -> json_index j key = None.
Proof. destruct j; simpl; intros H; try reflexivity; discriminate H. Qed.

(** X6. When the configuration file cannot be opened, cannot be parsed,
    or holds a value that is neither an object nor null, every inbound
    payload is dropped: the call returns normally, sends nothing and
    leaves the queue and the timer alone.  When the file cannot be
    opened the call does nothing but report that on the error stream;
    otherwise it still classifies the message and logs its type before
    the failed lookup is reported on the error stream. *)
Theorem unusable_config_drops L file dstEid b rest st :
  (file = None \/ exists j, file = Some j /\ indexable j = false) ->
  let res := processMctpCommand L file dstEid (b :: rest) st in
  res_outcome res = Returned
  /\ res_state res = st
  /\ signals (res_trace res) = []
  /\ res_trace res
     = match file with
       | None => [OpenConfig; CerrUnableToOpen]
       | Some _ =>
           [OpenConfig;
            Log INFO ("Message Type: " ++ getMessageType b)%string;
            CerrJsonException]
       end.
Proof.
  intros [->|(j & -> & Hj)]; cbv zeta; unfold processMctpCommand;
    cbn [nth_error].
  - simpl. repeat split.
  - rewrite (json_index_not_indexable j _ Hj). simpl. repeat split.
Qed.

Lemma unusable_config_drops_witness :
  let res :=
    processMctpCommand spec_layout (Some JDiscarded) 8 [0x01; 0x02]
                       initial_state in
  res_outcome res = Returned
  /\ res_state res = initial_state
  /\ signals (res_trace res) = []
  /\ res_trace res
     = [OpenConfig; Log INFO "Message Type: PLDM"; CerrJsonException].
Proof.
  apply (unusable_config_drops spec_layout (Some JDiscarded) 8 0x01 [0x02]
           initial_state).
  right. exists JDiscarded. split; reflexivity.
Defined.

(** X7. A category that the configuration does not mention is a
    category without rules, not an error: for a message type other than
    VDPCI, when the document is null or an object without a member for
    the category, the call classifies the message, logs that no request
    matched and does nothing else. *)
Theorem missing_category_is_no_match L reqResp dstEid b rest st :
  getMessageType b <> "VDPCI" ->
  (reqResp = JNull
   \/ exists members,
        reqResp = JObj members /\ assoc (getMessageType b) members = None) ->
  processMctpCommand L (Some reqResp) dstEid (b :: rest) st
  = mkResult Returned st
      [OpenConfig;
       Log INFO ("Message Type: " ++ getMessageType b)%string;
       Log INFO "mctp-emulator: No matching request found"].
Proof.
  intros Hty Hcfg. apply String.eqb_neq in Hty.
  unfold processMctpCommand. cbn [nth_error].
  assert (Hidx : json_index reqResp (getMessageType b) = Some JNull).
  { destruct Hcfg as [->|(members & -> & Hnone)]; [reflexivity|].
    simpl. now rewrite Hnone. }
  rewrite Hidx, Hty. reflexivity.
Qed.

Lemma missing_category_is_no_match_witness :
  processMctpCommand spec_layout (Some sample_config) 8 [0x05; 0x01]
                     initial_state
  = mkResult Returned initial_state
      [OpenConfig; Log INFO "Message Type: SPDM";
       Log INFO "mctp-emulator: No matching request found"].
Proof.
  apply (missing_category_is_no_match spec_layout sample_config 8 0x05 [0x01]
           initial_state).
  - discriminate.
  - right. eexists. split; reflexivity.
Defined.

(** ** Decoding rule entries *)

Lemma assign_bytes_nums (l : list Z) :
  assign_bytes (map JNum l) = Some (map to_uint8 l).
Proof.
  induction l as [|x l IH]; [reflexivity|].
  cbn [map assign_bytes json_to_uint8]. now rewrite IH.
Qed.

Lemma map_to_uint8_bytes (l : list Z) : Forall is_byte l -> map to_uint8 l = l.
Proof.
  induction 1 as [|x l Hx _ IH]; [reflexivity|].
  cbn [map]. rewrite IH. f_equal. unfold to_uint8. now apply Z.mod_small.
Qed.

(** X9. Decoding gives back what a well-formed entry states: an object
    whose request and response are arrays of bytes and whose delay, when
    present, is a 32-bit signed integer decodes to exactly this request,
    response and delay, and to the delay 0 when the entry states none. *)
Theorem decode_rule_roundtrip (delay : option Z) (rq rs : list Z) :
  match delay with
  | Some d => INT_MIN <= d <= INT_MAX
  | None => True
  end ->
  Forall is_byte rq ->
  Forall is_byte rs ->
  decode_rule (rule_entry delay rq rs)
  = Some (mkRule (match delay with Some d => d | None => 0 end) rq rs).
Proof.
  intros Hd Hrq Hrs. unfold decode_rule, rule_entry.
  destruct delay as [d|]; simpl;
    rewrite !assign_bytes_nums, (map_to_uint8_bytes rq Hrq),
      (map_to_uint8_bytes rs Hrs);
    [now rewrite (to_int32_id d Hd)|reflexivity].
Qed.

Lemma decode_rule_roundtrip_witness :
  decode_rule (rule_entry (Some (-1)) [0x06; 0xFF] [0x00])
  = Some (mkRule (-1) [0x06; 0xFF] [0x00]).
Proof.
  apply (decode_rule_roundtrip (Some (-1)) [0x06; 0xFF] [0x00]).
  - unfold INT_MIN, INT_MAX. simpl. lia.
  - repeat constructor; unfold is_byte; lia.
  - repeat constructor; unfold is_byte; lia.
Defined.

(** X16. What an entry leaves out is filled in, what is not an entry is
    skipped: a null entry, and an object without the members
    [processing-delay], [request] and [response], decode to the rule
    with delay 0, empty request and empty response, which matches
    exactly the payload that consists of the header alone; an entry that
    is neither an object nor null does not decode. *)
Theorem decode_rule_defaults :
  decode_rule JNull = Some (mkRule 0 [] [])
  /\ (forall members,
        assoc "processing-delay" members = None
        -> assoc "request" members = None
        -> assoc "response" members = None
        -> decode_rule (JObj members) = Some (mkRule 0 [] []))
  /\ (forall reqHeader payload,
        rule_matches reqHeader (mkRule 0 [] []) payload = true
        <-> payload = reqHeader)
  /\ (forall iter, indexable iter = false -> decode_rule iter = None).
Proof.
  split; [reflexivity|]. split; [|split].
  - intros members Hd Hq Hs. unfold decode_rule. simpl.
    now rewrite Hd, Hq, Hs.
  - intros reqHeader payload. unfold rule_matches. rewrite vec_eqb_eq.
    cbn [req]. rewrite app_nil_r. split; congruence.
  - intros iter Hi. unfold decode_rule.
    rewrite !(json_index_not_indexable iter _ Hi).
    destruct iter; try discriminate Hi; reflexivity.
Qed.

(** ** Vendor identifiers and sub-type codes *)

Lemma is_byte_in_all_bytes z : is_byte z -> In z all_bytes.
Proof.
  intros Hz. unfold all_bytes, is_byte in *.
  apply in_map_iff. exists (Z.to_nat z). split; [lia|].
  apply in_seq. lia.
Qed.

Lemma forallb2_bytes (f : Z -> Z -> bool) :
  forallb (fun a => forallb (f a) all_bytes) all_bytes = true ->
  forall a b, is_byte a -> is_byte b -> f a b = true.
Proof.
  intros H a b Ha Hb.
  rewrite forallb_forall in H.
  specialize (H a (is_byte_in_all_bytes a Ha)).
  rewrite forallb_forall in H.
  exact (H b (is_byte_in_all_bytes b Hb)).
Qed.

Lemma be16toh_bytes b0 b1 :
  is_byte b0 -> is_byte b1 -> be16toh b0 b1 = 256 * b0 + b1.
Proof.
  intros H0 H1. apply Z.eqb_eq.
  apply (forallb2_bytes (fun a b => be16toh a b =? 256 * a + b));
    [vm_compute; reflexivity|exact H0|exact H1].
Qed.

(** X10. The vendor identifier is read big-endian, and Intel's is the
    only one the registry knows: for two bytes [b0], [b1] in wire order
    the identifier is [256 * b0 + b1], the registry resolves it to Intel
    exactly when the bytes are 0x80 and 0x86, and to nothing otherwise. *)
Theorem vendor_id_bytes b0 b1 :
  is_byte b0 -> is_byte b1 ->
  be16toh b0 b1 = 256 * b0 + b1
  /\ (vendorMap !! be16toh b0 b1 = Some "Intel" <-> b0 = 0x80 /\ b1 = 0x86)
  /\ (vendorMap !! be16toh b0 b1 = None <-> ~ (b0 = 0x80 /\ b1 = 0x86)).
Proof.
  intros H0 H1. pose proof (be16toh_bytes b0 b1 H0 H1) as Hbe.
  split; [exact Hbe|]. rewrite Hbe. unfold vendorMap, is_byte in *.
  destruct (Z.eq_dec (256 * b0 + b1) 0x8086) as [Heq|Hne].
  - rewrite Heq, lookup_singleton_eq. split; split.
    + intros _. lia.
    + intros _. reflexivity.
    + discriminate.
    + intros Hn. exfalso. apply Hn. lia.
  - rewrite lookup_singleton_ne by congruence. split; split.
    + discriminate.
    + intros [-> ->]. now contradict Hne.
    + intros _ [-> ->]. now contradict Hne.
    + intros _. reflexivity.
Qed.

Lemma vendor_id_bytes_witness :
  be16toh 0x80 0x86 = 256 * 0x80 + 0x86
  /\ (vendorMap !! be16toh 0x80 0x86 = Some "Intel" <-> 0x80 = 0x80 /\ 0x86 = 0x86)
  /\ (vendorMap !! be16toh 0x80 0x86 = None <-> ~ (0x80 = 0x80 /\ 0x86 = 0x86)).
Proof.
  apply (vendor_id_bytes 0x80 0x86); unfold is_byte; lia.
Defined.

(** X12. The sub-type code of a vendor message selects its rule list by
    its decimal representation, and two different codes never select
    the same list: [std::to_string] is injective on bytes. *)
Theorem subtype_keys_distinct a b :
  is_byte a -> is_byte b -> to_string a = to_string b -> a = b.
Proof.
  intros Ha Hb Heq.
  pose proof (forallb2_bytes
                (fun x y => implb (String.eqb (to_string x) (to_string y))
                                  (x =? y))) as H.
  specialize (H ltac:(vm_compute; reflexivity) a b Ha Hb).
  cbv beta in H. rewrite Heq, String.eqb_refl in H. simpl in H.
  now apply Z.eqb_eq.
Qed.

Lemma subtype_keys_distinct_witness : to_string 16 = "16" /\ 16 = 16.
Proof.
  split; [reflexivity|].
  apply (subtype_keys_distinct 16 16); [unfold is_byte; lia ..|reflexivity].
Defined.

(** ** The classifier, continued *)

(** X13. The classifier separates the assigned codes: a value is named
    Unknown exactly when it is none of the eight assigned codes, and two
    different assigned codes never share a name, so that no two of them
    share the rules of a category. *)
Theorem getMessageType_separates :
  (forall b, getMessageType b = "Unknown" <-> ~ In b assigned_codes)
  /\ (forall a b,
        In a assigned_codes -> In b assigned_codes
        -> getMessageType a = getMessageType b -> a = b).
Proof.
  split.
  - intros b. split.
    + intros Hun Hin. simpl in Hin.
      repeat (destruct Hin as [<-|Hin]; [discriminate Hun|]).
      exact Hin.
    + intros Hnot. destruct (getMessageType_cases b) as [Hin|Hun];
        [contradiction|exact Hun].
  - intros a b Ha Hb. simpl in Ha, Hb.
    repeat (destruct Ha as [<-|Ha];
            [repeat (destruct Hb as [<-|Hb];
                     [first [reflexivity|discriminate]|]);
             destruct Hb|]).
    destruct Ha.
Qed.

(** ** Vendor messages with a valid header *)

(** X11. A VDPCI payload that is long enough, carries Intel's
    identifier and has 0x80 in the reserved byte is never rejected: the
    call scans the rules stored under [VDPCI], then [Intel], then the
    decimal sub-type code, with the first [hdr_size] bytes of the
    payload as the header prefix, so that a rule it selects has the rest
    of the payload as its request. *)
Theorem valid_vendor_header_is_scanned L reqResp dstEid payload st
    (data v rules : json) :
  nth_error payload 0 = Some MCTP_MESSAGE_TYPE_VDPCI ->
  (hdr_size L <= List.length payload)%nat ->
  nth (vendor_id_offset L) payload 0 = 0x80 ->
  nth (S (vendor_id_offset L)) payload 0 = 0x86 ->
  nth (reserved_offset L) payload 0 = 0x80 ->
  json_index reqResp "VDPCI" = Some data ->
  json_index data "Intel" = Some v ->
  json_index v (to_string (nth (vendor_type_code_offset L) payload 0))
  = Some rules ->
  let res := processMctpCommand L (Some reqResp) dstEid payload st in
  let lp :=
    match_loop (firstn (hdr_size L) payload) payload MCTP_MESSAGE_TYPE_VDPCI
               dstEid 0 false (json_items rules) st in
  res_outcome res = Returned
  /\ res_state res = fst lp
  /\ signals (res_trace res) = signals (snd lp)
  /\ (forall r,
        first_match (firstn (hdr_size L) payload) payload (json_items rules)
        = Some r
        -> req r = skipn (hdr_size L) payload).
Proof.
  intros Hty Hlen Hb0 Hb1 Hres Hdata Hv Hrules. cbv zeta.
  destruct payload as [|mtype rest]; [discriminate Hty|].
  simpl in Hty. injection Hty as ->.
  pose proof (processMctpCommand_lookup L (Some reqResp) dstEid
                MCTP_MESSAGE_TYPE_VDPCI rest st) as H.
  cbv zeta in H.
  assert (Hlk : lookup L (Some reqResp) (MCTP_MESSAGE_TYPE_VDPCI :: rest)
                = Some (json_items rules)).
  { unfold lookup. cbn [nth_error].
    change (getMessageType MCTP_MESSAGE_TYPE_VDPCI) with "VDPCI".
    rewrite Hdata. cbn [String.eqb Ascii.eqb Bool.eqb].
    destruct (Nat.ltb_spec (List.length (MCTP_MESSAGE_TYPE_VDPCI :: rest))
                           (hdr_size L)) as [Hshort|_]; [lia|].
    rewrite Hb0, Hb1, Hres.
    change (vendorMap !! be16toh 128 134) with (Some "Intel").
    cbn [String.eqb Ascii.eqb Bool.eqb Z.eqb Pos.eqb negb andb].
    rewrite Hv, Hrules. reflexivity. }
  rewrite Hlk in H. destruct H as (Hout & Hst & Htr).
  unfold header_prefix in Hst, Htr.
  change (getMessageType MCTP_MESSAGE_TYPE_VDPCI) with "VDPCI" in Hst, Htr.
  cbn [String.eqb Ascii.eqb Bool.eqb] in Hst, Htr.
  split; [exact Hout|]. split; [exact Hst|]. split.
  - rewrite Htr. reflexivity.
  - intros r Hr. apply first_match_decoded in Hr as (iter & _ & _ & Hm).
    apply vec_eqb_eq in Hm.
    rewrite <- (firstn_skipn (hdr_size L) (MCTP_MESSAGE_TYPE_VDPCI :: rest))
      in Hm at 2.
    now apply app_inv_head in Hm.
Qed.

Lemma valid_vendor_header_is_scanned_witness :
  signals
    (res_trace
       (processMctpCommand type_first_layout (Some vendor_config) 8
                           [0x7E; 0x80; 0x86; 0x80; 0x01; 0x05] initial_state))
  = [mkSignal 0x7E 8 0 false [0x06]].
Proof.
  refine (proj1 (proj2 (proj2
            (valid_vendor_header_is_scanned type_first_layout vendor_config 8
               [0x7E; 0x80; 0x86; 0x80; 0x01; 0x05] initial_state
               (JObj [("Intel",
                       JObj [("1", JArr [rule_entry None [0x05] [0x06]])])])
               (JObj [("1", JArr [rule_entry None [0x05] [0x06]])])
               (JArr [rule_entry None [0x05] [0x06]])
               _ _ _ _ _ _ _ _))));
    try reflexivity.
  simpl. lia.
Defined.

(** ** Entries that do not decode *)

Lemma first_match_decodable reqHeader payload items :
  first_match reqHeader payload (decodable items)
  = first_match reqHeader payload items.
Proof.
  unfold decodable. induction items as [|iter rest IH]; [reflexivity|].
  cbn [List.filter first_match].
  destruct (decode_rule iter) as [r|] eqn:Hdec; [|exact IH].
  cbn [first_match]. rewrite Hdec, IH. reflexivity.
Qed.

Lemma match_loop_result reqHeader payload mtype eid tag owner items st :
  let lp := match_loop reqHeader payload mtype eid tag owner items st in
  let act :=
    match first_match reqHeader payload items with
    | Some r =>
        respond (processingDelayMilliSec r)
                (mkSignal mtype eid tag owner (rule_response r)) st
    | None => (st, [])
    end in
  fst lp = fst act /\ signals (snd lp) = signals (snd act).
Proof.
  pose proof (match_loop_first_match reqHeader payload mtype eid tag owner
                items st) as H.
  cbv zeta in *.
  destruct (first_match reqHeader payload items) as [r|].
  - destruct H as (Hst & pre & Ht & Hpre). split; [exact Hst|].
    now rewrite Ht, signals_app, Hpre.
  - destruct H as (Hst & Hsig & _). auto.
Qed.

(** X15. Entries of the rule list that fail to decode are passed over
    and change nothing but the log: the loop leaves the same globals and
    sends the same signals as it does on the list without them, so that
    a malformed entry never hides the rules that follow it. *)
Theorem undecodable_entries_are_skipped reqHeader payload mtype eid tag owner
    (items : list json) (st : State) :
  let lp := match_loop reqHeader payload mtype eid tag owner items st in
  let lp' :=
    match_loop reqHeader payload mtype eid tag owner (decodable items) st in
  fst lp = fst lp' /\ signals (snd lp) = signals (snd lp').
Proof.
  cbv zeta.
  destruct (match_loop_result reqHeader payload mtype eid tag owner items st)
    as [H1 H2].
  destruct (match_loop_result reqHeader payload mtype eid tag owner
              (decodable items) st) as [H3 H4].
  rewrite first_match_decodable in H3, H4.
  split; congruence.
Qed.

(** ** The method of the D-Bus interface *)

(** X14. The method never reports a failure and never looks at the tag
    of the request: for every non-empty payload it returns the code 0,
    whether the message was answered, queued, dropped or rejected, and
    has exactly the effects of the command; for the empty payload it
    ends with the exception and has changed nothing; the message tag and
    the tag-owner flag of the request have no influence on either. *)
Theorem method_return_code L file DstEid MsgTag TagOwner st :
  (forall b rest,
      let res := processMctpCommand L file DstEid (b :: rest) st in
      SendMctpMessagePayload L file DstEid MsgTag TagOwner (b :: rest) st
      = (Some 0, res_state res,
         Log INFO "mctp-emulator: Received Payload" :: res_trace res))
  /\ SendMctpMessagePayload L file DstEid MsgTag TagOwner [] st
     = (None, st, [Log INFO "mctp-emulator: Received Payload"])
  /\ (forall MsgTag' TagOwner' payload,
        SendMctpMessagePayload L file DstEid MsgTag' TagOwner' payload st
        = SendMctpMessagePayload L file DstEid MsgTag TagOwner payload st).
Proof.
  split; [|split; reflexivity].
  intros b rest. cbv zeta. unfold SendMctpMessagePayload.
  destruct (processMctpCommand_cases L file DstEid b rest st)
    as [(Hout & _)|(items & Hout & _)]; now rewrite Hout.
Qed.

(** ** The latency of a delayed response *)

Lemma flat_map_single {A} (x : A) (n : nat) : forall k a,
  flat_map (fun i => if (n =? i)%nat then [x] else []) (seq a k)
  = if ((a <=? n) && (n <? a + k))%nat then [x] else [].
Proof.
  induction k as [|k IH]; intros a.
  - cbn [seq flat_map].
    destruct (Nat.leb_spec a n), (Nat.ltb_spec n (a + 0)); simpl;
      try reflexivity; lia.
  - cbn [seq flat_map]. rewrite IH.
    destruct (Nat.eqb_spec n a) as [Heq|Hne];
      destruct (Nat.leb_spec (S a) n), (Nat.ltb_spec n (S a + k)),
        (Nat.leb_spec a n), (Nat.ltb_spec n (a + S k));
      simpl; try reflexivity; lia.
Qed.

(** X17. The latency of a delayed response: when a payload that selects
    a rule with delay [d > 0] reaches the idle process, the following
    timer completions without error send nothing until the response
    goes out on tick [1 + ceil (d / 10)], one tick later than the delay
    alone would ask for, and nothing after it. *)
Theorem delayed_response_latency L file dstEid payload r (k : nat) :
  selected_rule L file payload = Some r ->
  0 < processingDelayMilliSec r ->
  signals (snd (run L (Inbound dstEid payload :: ticks k) (start file)))
  = if (due_tick (processingDelayMilliSec r) <=? k)%nat
    then [mkSignal (hd 0 payload) dstEid 0 false (rule_response r)]
    else [].
Proof.
  intros Hsel Hpos.
  destruct (selected_rule_nonempty L file payload r Hsel) as (mtype & rest & ->).
  pose proof (processMctpCommand_selected L file dstEid mtype rest
                initial_state) as H.
  cbv zeta in H. rewrite Hsel in H.
  destruct H as (_ & Hst & pre & Htr & Hpre).
  destruct (respond_cases (processingDelayMilliSec r)
              (mkSignal mtype dstEid 0 false (rule_response r)) initial_state)
    as [[Hd _]|[[Hd _]|[[_ Hr]|[Hd _]]]]; try lia.
  rewrite Hr in Hst, Htr. cbn [fst snd] in Hst, Htr.
  cbn [run step start config_file globals hd].
  rewrite Hst, Htr.
  change (enqueue (processingDelayMilliSec r)
                  (mkSignal mtype dstEid 0 false (rule_response r))
                  initial_state)
    with (mkState [(processingDelayMilliSec r,
                    mkSignal mtype dstEid 0 false (rule_response r))]
                  false true).
  pose proof (ticks_signals L file k
                (mkState [(processingDelayMilliSec r,
                           mkSignal mtype dstEid 0 false (rule_response r))]
                         false true) eq_refl) as Hticks.
  destruct (run L (ticks k) _) as [w2 t2]. cbn [snd respQueue] in *.
  rewrite !signals_app, Hpre, Hticks. cbn [signals app].
  unfold due_on. cbn [List.filter fst].
  rewrite (flat_map_ext _
             (fun i => if (due_tick (processingDelayMilliSec r) =? i)%nat
                       then [mkSignal mtype dstEid 0 false (rule_response r)]
                       else [])).
  - rewrite flat_map_single.
    replace (1 + k)%nat with (S k) by lia.
    unfold due_tick.
    destruct (Nat.leb_spec 1 (S (Z.to_nat ((processingDelayMilliSec r + 9) / 10)))),
      (Nat.ltb_spec (S (Z.to_nat ((processingDelayMilliSec r + 9) / 10))) (S k)),
      (Nat.leb_spec (S (Z.to_nat ((processingDelayMilliSec r + 9) / 10))) k);
      simpl; try reflexivity; lia.
  - intros i. now destruct (due_tick (processingDelayMilliSec r) =? i)%nat.
Qed.

Lemma delayed_response_latency_witness :
  signals
    (snd (run spec_layout (Inbound 8 [0x01; 0x04] :: ticks 6)
              (start (Some sample_config))))
  = [mkSignal 0x01 8 0 false [0x05]].
Proof.
  apply (delayed_response_latency spec_layout (Some sample_config) 8
           [0x01; 0x04] (mkRule 50 [0x04] [0x05]) 6).
  - reflexivity.
  - simpl. lia.
Defined.

(** ** Message types without a category of their own *)

Lemma vec_eqb_cons x a b : vec_eqb (x :: a) (x :: b) = vec_eqb a b.
Proof. unfold vec_eqb. simpl. now rewrite Z.eqb_refl. Qed.

Lemma first_match_type_byte a b rest items :
  first_match [a] (a :: rest) items = first_match [b] (b :: rest) items.
Proof.
  induction items as [|iter items IH]; [reflexivity|].
  cbn [first_match]. destruct (decode_rule iter) as [r|]; [|exact IH].
  unfold rule_matches. cbn [app]. rewrite !vec_eqb_cons, IH. reflexivity.
Qed.

(** X18. The rules stored under [Unknown] are shared by every message
    type without a category of its own: two payloads that differ only in
    their type byte, neither byte being an assigned code, select the
    same rule. *)
Theorem unassigned_types_share_rules L file a b rest :
  ~ In a assigned_codes -> ~ In b assigned_codes ->
  selected_rule L file (a :: rest) = selected_rule L file (b :: rest).
Proof.
  intros Ha Hb.
  assert (Hua : getMessageType a = "Unknown")
    by (destruct (getMessageType_cases a); [contradiction|assumption]).
  assert (Hub : getMessageType b = "Unknown")
    by (destruct (getMessageType_cases b); [contradiction|assumption]).
  unfold selected_rule, lookup, header_prefix. cbn [nth_error].
  rewrite Hua, Hub. cbn [String.eqb Ascii.eqb Bool.eqb].
  destruct file as [reqResp|]; [|reflexivity].
  destruct (json_index reqResp "Unknown") as [data|]; [|reflexivity].
  apply first_match_type_byte.
Qed.

Lemma unassigned_types_share_rules_witness :
  selected_rule spec_layout
    (Some (JObj [("Unknown", JArr [rule_entry None [0x01] [0x02]])]))
    [0x10; 0x01]
  = selected_rule spec_layout
      (Some (JObj [("Unknown", JArr [rule_entry None [0x01] [0x02]])]))
      [0x20; 0x01].
Proof.
  apply (unassigned_types_share_rules spec_layout
           (Some (JObj [("Unknown", JArr [rule_entry None [0x01] [0x02]])]))
           0x10 0x20 [0x01]);
    simpl; intros H; repeat (destruct H as [H|H]; [discriminate H|]);
    exact H.
Defined.

(** * The delay policy *)






